(** * CoSA [vcf/VCFCons.py]: pileup decoding and VCF-driven consensus

    A shallow embedding of [MPileUpRecord], [MPileUpReader.parseLine],
    [make_seq_from_list], [genVCFcons] and the [__main__] option check,
    followed by the properties of the specification that they decide.

    Conventions of the embedding:
    - a Python [int] is a [Z]; an index into a [str] is a [nat];
    - a Python [str] is a [string] of ASCII characters (case mapping and
      whitespace are the ASCII ones);
    - a Python [float] is a binary64 [float] (Rocq's primitive floats);
    - a [dict] or [Counter] is a [gmap]; a missing [Counter] key reads 0;
    - a raised exception is [Raise e]; Python [while] loops take a fuel
      argument, and [OutOfFuel] is shown never to be returned for the fuel
      the embedding passes. *)

From Stdlib Require Import ZArith String Ascii List Floats Lia.
From stdpp Require Import base option list gmap strings pretty.

Local Open Scope string_scope.
Local Open Scope list_scope.
Local Open Scope Z_scope.

(** ** Python values, exceptions and built-ins *)

Module Py.

(** The two messages the module passes to [Exception(...)]. *)
Inductive message : Type :=
| UnknownReadBase (b : ascii)                 (* "Unknown {0} in readBase!" *)
| ExpectedSevenCols (n : nat) (line : string) (* "Expected to have 7 cols ..." *).

Inductive exn : Type :=
| Exception (m : message)
| AssertionError
| AttributeError
| KeyError (k : Z)
| KeyErrorName (k : string)
| FileNotFoundError (path : string)
| SystemExit (code : Z)
| NameError (name : string)
| UnboundLocalError (name : string)
| ValueError (what : string)
| IndexError
| TypeError
| ZeroDivisionError
| OverflowError.

Inductive result (A : Type) : Type :=
| Ok (a : A)
| Raise (e : exn)
| OutOfFuel.
Arguments Ok {A} a.
Arguments Raise {A} e.
Arguments OutOfFuel {A}.

Definition bind {A B : Type} (r : result A) (k : A -> result B) : result B :=
  match r with
  | Ok a => k a
  | Raise e => Raise e
  | OutOfFuel => OutOfFuel
  end.

Definition map_result {A B : Type} (f : A -> B) (r : result A) : result B :=
  bind r (fun a => Ok (f a)).

(** [c in s] for a one-character [c]. *)
Fixpoint char_in (c : ascii) (s : string) : bool :=
  match s with
  | EmptyString => false
  | String d s' => Ascii.eqb c d || char_in c s'
  end.

Definition isdigit (c : ascii) : bool := char_in c "0123456789".

Definition digit_value (c : ascii) : Z := Z.of_nat (nat_of_ascii c) - 48.

(** [str.isspace] on one ASCII character: TAB, LF, VT, FF, CR, FS, GS, RS,
    US and the space. *)
Definition isspace (c : ascii) : bool :=
  let n := nat_of_ascii c in
  ((9 <=? n)%nat && (n <=? 13)%nat) || ((28 <=? n)%nat && (n <=? 32)%nat).

Fixpoint lstrip (s : string) : string :=
  match s with
  | EmptyString => EmptyString
  | String c s' => if isspace c then lstrip s' else s
  end.

Fixpoint rstrip (s : string) : string :=
  match s with
  | EmptyString => EmptyString
  | String c s' =>
      match rstrip s' with
      | EmptyString => if isspace c then EmptyString else String c EmptyString
      | r => String c r
      end
  end.

Definition strip (s : string) : string := rstrip (lstrip s).

(** [s.split(sep)] for a one-character separator: never an empty list. *)
Fixpoint split_on (sep : ascii) (s : string) : list string :=
  match s with
  | EmptyString => [EmptyString]
  | String c s' =>
      if Ascii.eqb c sep then EmptyString :: split_on sep s'
      else match split_on sep s' with
           | [] => [String c EmptyString]
           | w :: ws => String c w :: ws
           end
  end.

(** [s.split()]: the maximal runs of non-whitespace characters. *)
Fixpoint split_ws_go (cur : option string) (s : string) : list string :=
  match s with
  | EmptyString => match cur with Some w => [w] | None => [] end
  | String c s' =>
      if isspace c
      then match cur with
           | Some w => w :: split_ws_go None s'
           | None => split_ws_go None s'
           end
      else split_ws_go (Some (default EmptyString cur +:+ String c EmptyString)) s'
  end.

Definition split_ws (s : string) : list string := split_ws_go None s.

Definition lower_char (c : ascii) : ascii :=
  let n := nat_of_ascii c in
  if (65 <=? n)%nat && (n <=? 90)%nat then ascii_of_nat (n + 32) else c.

Definition upper_char (c : ascii) : ascii :=
  let n := nat_of_ascii c in
  if (97 <=? n)%nat && (n <=? 122)%nat then ascii_of_nat (n - 32) else c.

Fixpoint map_string (f : ascii -> ascii) (s : string) : string :=
  match s with
  | EmptyString => EmptyString
  | String c s' => String (f c) (map_string f s')
  end.

Definition lower : string -> string := map_string lower_char.
Definition upper : string -> string := map_string upper_char.

(** The slice [s[a:b]] for [0 <= a]; Python clamps both ends. *)
Definition slice (s : string) (a b : nat) : string :=
  String.substring a (b - a) s.

(** The slice [s[1:]]. *)
Definition tail (s : string) : string :=
  match s with
  | EmptyString => EmptyString
  | String _ s' => s'
  end.

(** The digits of a decimal literal: digit groups separated by single
    underscores. [seen] tells whether the previous character was a digit. *)
Fixpoint int_digits (acc : Z) (seen : bool) (s : string) : option Z :=
  match s with
  | EmptyString => if seen then Some acc else None
  | String c s' =>
      if isdigit c then int_digits (10 * acc + digit_value c) true s'
      else if Ascii.eqb c "_" && seen then int_digits acc false s'
      else None
  end.

(** [int(s)] on a string: surrounding whitespace, an optional sign, digits. *)
Definition int (s : string) : result Z :=
  let body := strip s in
  let parsed :=
    match body with
    | String "+" r => int_digits 0 false r
    | String "-" r => Z.opp <$> int_digits 0 false r
    | _ => int_digits 0 false body
    end in
  match parsed with
  | Some z => Ok z
  | None => Raise (ValueError s)
  end.

(** [str(z)] for an integer. *)
Definition str (z : Z) : string := pretty z.

(** Length of the run of digits a string starts with. *)
Fixpoint digit_run (s : string) : nat :=
  match s with
  | EmptyString => O
  | String c s' => if isdigit c then S (digit_run s') else O
  end.

(** [re.compile('(\d+)').search(s, start)]: [(m.start(), m.end())] of the
    leftmost run of digits that begins at or after [start]; [pos] is the
    index of the first character of [s] in the whole string. *)
Fixpoint rex_search (s : string) (pos start : nat) : option (nat * nat) :=
  match s with
  | EmptyString => None
  | String c s' =>
      if (start <=? pos)%nat && isdigit c
      then Some (pos, (pos + digit_run s)%nat)
      else rex_search s' (S pos) start
  end.

(** A [Counter]: reading a missing key gives 0 and adds nothing. *)
Definition counter_get (c : gmap string Z) (k : string) : Z :=
  default 0 (c !! k).

(** [c[k] += 1] *)
Definition counter_incr (c : gmap string Z) (k : string) : gmap string Z :=
  <[k := counter_get c k + 1]> c.

End Py.

Export Py.

(** ** The pileup record and its decoder *)

Module MPileUp.

Record MPileUpRecord : Type := mkMPileUpRecord {
  chr : string;
  pos : Z;
  ref : string;
  cov : Z;
  nCov : Z;
  nType : Z;
  readBase : string;
  baseQuals : string;
  alnQuals : string;
  counts : gmap string Z
}.

Section parse_readBase.

(** [self.ref] (already upper-cased), [self.readBase] and [self.cov]. *)
Variables (self_ref self_readBase : string) (self_cov : Z).

(** [read_indel(start_index)] *)
Definition read_indel (start_index : nat) : result (nat * nat) :=
  match rex_search self_readBase 0 start_index with
  | None => Raise AttributeError
  | Some (m_start, m_end) =>
      bind (int (slice self_readBase m_start m_end)) (fun num =>
      Ok (m_start, (m_end + Z.to_nat num)%nat))
  end.

(** The [while i < len(self.readBase)] loop; the state is the cursor [i],
    [self.counts] and [sanity_counter]. *)
Fixpoint scan (fuel : nat) (i : nat) (counts : gmap string Z)
    (sanity_counter : Z) : result (gmap string Z * Z) :=
  match String.get i self_readBase with
  | None => Ok (counts, sanity_counter)
  | Some b =>
      match fuel with
      | O => OutOfFuel
      | S fuel =>
          if char_in b "<>" then
            scan fuel (i + 1)%nat counts (sanity_counter + 1)
          else if Ascii.eqb b "*" then
            scan fuel (i + 1)%nat counts (sanity_counter + 1)
          else if Ascii.eqb b "^" then
            scan fuel (i + 3)%nat counts (sanity_counter + 1)
          else if Ascii.eqb b "$" then
            scan fuel (i + 1)%nat counts sanity_counter
          else if Ascii.eqb b "." then
            scan fuel (i + 1)%nat (counter_incr counts self_ref)
                 (sanity_counter + 1)
          else if Ascii.eqb b "," then
            scan fuel (i + 1)%nat (counter_incr counts (lower self_ref))
                 (sanity_counter + 1)
          else if char_in b "ATCGNatcgn" then
            scan fuel (i + 1)%nat
                 (counter_incr counts (String b EmptyString))
                 (sanity_counter + 1)
          else if Ascii.eqb b "-" then
            match read_indel (i + 1)%nat with
            | Ok (start, end_) =>
                scan fuel end_
                     (counter_incr counts
                        ("-" +:+ slice self_readBase start end_))
                     sanity_counter
            | Raise e => Raise e
            | OutOfFuel => OutOfFuel
            end
          else if Ascii.eqb b "+" then
            match read_indel (i + 1)%nat with
            | Ok (start, end_) =>
                scan fuel end_
                     (counter_incr counts
                        ("+" +:+ slice self_readBase start end_))
                     sanity_counter
            | Raise e => Raise e
            | OutOfFuel => OutOfFuel
            end
          else Raise (Exception (UnknownReadBase b))
      end
  end.

(** Every turn of the loop moves the cursor forward, so one unit of fuel
    per character is enough. *)
Definition scan_fuel : nat := String.length self_readBase.

(** The [assert] after the loop. *)
Definition sanity_ok (sanity_counter : Z) : bool :=
  Z.eqb self_cov sanity_counter
  || (String.eqb self_readBase "*" && Z.eqb self_cov 0).

(** The loop over ['ATCGNatcgn'] that sets [nCov] and [nType]. *)
Definition non_indel (counts : gmap string Z) : Z * Z :=
  fold_left
    (fun '(ncov, ntype) x =>
       let c := counter_get counts (String x EmptyString) in
       (ncov + c, if Z.ltb 0 c then ntype + 1 else ntype))
    (list_ascii_of_string "ATCGNatcgn") (0, 0).

(** [parse_readBase]: the final [(counts, nCov, nType)]. *)
Definition parse_readBase : result (gmap string Z * Z * Z) :=
  bind (scan scan_fuel 0 ∅ 0) (fun '(counts, sanity_counter) =>
  if sanity_ok sanity_counter
  then let '(ncov, ntype) := non_indel counts in Ok (counts, ncov, ntype)
  else Raise AssertionError).

End parse_readBase.

(** [MPileUpRecord.__init__] *)
Definition MPileUpRecord_init (chr : string) (pos : Z) (ref : string)
    (cov : Z) (readBase baseQuals alnQuals : string) : result MPileUpRecord :=
  let self_ref := upper ref in
  bind (parse_readBase self_ref readBase cov) (fun '(counts, ncov, ntype) =>
  Ok {| chr := chr; pos := pos; ref := self_ref; cov := cov;
        nCov := ncov; nType := ntype; readBase := readBase;
        baseQuals := baseQuals; alnQuals := alnQuals; counts := counts |}).

(** [MPileUpReader.parseLine] *)
Definition parseLine (line : string) : result MPileUpRecord :=
  let raw := split_on "009" (strip line) in
  let field (k : nat) := default EmptyString (raw !! k) in
  if (length raw =? 7)%nat || (length raw =? 15)%nat then
    bind (int (field 3%nat)) (fun _ =>
    bind (int (field 1%nat)) (fun pos1 =>
    bind (int (field 3%nat)) (fun cov =>
    MPileUpRecord_init (field 0%nat) (pos1 - 1) (field 2%nat) cov
                       (field 4%nat) (field 5%nat) (field 6%nat))))
  else if (length raw =? 4)%nat then
    bind (int (field 1%nat)) (fun pos1 =>
    MPileUpRecord_init (field 0%nat) (pos1 - 1) (field 2%nat) 0
                       EmptyString EmptyString EmptyString)
  else Raise (Exception (ExpectedSevenCols (length raw) line)).

End MPileUp.

Export MPileUp.

(** ** The consensus builder *)

Module VCFCons.

(** What the code reads of a call of the VCF library: [v.POS], [v.REF],
    [v.ALT], [v.QUAL], [v.samples] and the two [v.INFO] entries. *)
Inductive ADfield : Type :=
| ADscalar (ad : Z)
| ADlist (ads : list Z).

Record CallData : Type := mkCallData {
  DP : Z;
  AD : ADfield;
  CLCAD2 : list Z
}.

Record Sample : Type := mkSample {
  data : CallData;
  gt_alleles : list string
}.

Inductive pynum : Type :=
| PyInt (z : Z)
| PyFloat (f : float).

Record VariantCall : Type := mkVariantCall {
  POS : Z;
  REF : string;
  ALT : list string;
  QUAL : option pynum;
  samples : list Sample;
  INFO_DP : option Z;
  INFO_DP4 : option (list Z)
}.

(** The files a run can see: the first record of a FASTA file, the lines of
    a text file, the calls of a VCF file. *)
Record FileSystem : Type := mkFileSystem {
  fasta_files : gmap string string;
  text_files : gmap string (list string);
  vcf_files : gmap string (list VariantCall)
}.

Definition path_exists (fs : FileSystem) (path : string) : bool :=
  bool_decide (is_Some (fasta_files fs !! path))
  || bool_decide (is_Some (text_files fs !! path))
  || bool_decide (is_Some (vcf_files fs !! path)).

(** The lines the code prints. *)
Inductive log_message : Type :=
| WarnMultiAlt (prefix : string)
| ErrGenotypeCount (name : string)
| InfoIgnoreCov (prefix : string) (pos : Z) (ref alt : string) (total_cov : Z)
| InfoIgnoreFreq (prefix : string) (pos : Z) (ref alt : string) (alt_freq : float)
| InfoIgnoreQual (prefix : string) (pos : Z) (ref alt : string) (qual : pynum)
| WarnQualEmpty (prefix : string) (pos : Z)
| ErrMinAltFreq (got : float)
| ErrCannotFind (path : string).

(** What a run does to the outside, in the order it does it. *)
Inductive event : Type :=
| Print (m : log_message)
| OpenRead (path : string)
| OpenWrite (path : string)
| Write (path text : string)
| Close (path : string)
| WriteRecord (v : VariantCall).

(** A computation that appends to the trace of events and returns or
    raises; the trace survives an exception. *)
Definition M (A : Type) : Type := list event -> list event * result A.

Definition ret {A : Type} (a : A) : M A := fun tr => (tr, Ok a).

Definition raise {A : Type} (e : exn) : M A := fun tr => (tr, Raise e).

Definition lift {A : Type} (r : result A) : M A := fun tr => (tr, r).

Definition emit (e : event) : M unit := fun tr => ((tr ++ [e])%list, Ok tt).

Definition bindM {A B : Type} (m : M A) (k : A -> M B) : M B :=
  fun tr =>
    match m tr with
    | (tr', Ok a) => k a tr'
    | (tr', Raise e) => (tr', Raise e)
    | (tr', OutOfFuel) => (tr', OutOfFuel)
    end.

Notation "'do' x <-- c1 ; c2" := (bindM c1 (fun x => c2))
  (at level 10, x name, c1 at level 99, c2 at level 200).
Notation "'do' ' pat <-- c1 ; c2" :=
  (bindM c1 (fun x => match x with pat => c2 end))
  (at level 10, pat pattern, c1 at level 99, c2 at level 200).
Notation "'exec' c1 ; c2" := (bindM c1 (fun _ => c2))
  (at level 10, c1 at level 99, c2 at level 200).

Definition run {A : Type} (m : M A) : list event * result A := m [].

Definition nl : string := String "010" EmptyString.

(** [make_seq_from_list] *)
Definition make_seq_from_list (seqlist : gmap Z string) (start0 end1 : Z) : string :=
  fold_left
    (fun seq i => match seqlist !! i with Some v => seq +:+ v | None => seq end)
    (seqZ start0 (end1 - start0)) EmptyString.

(** [print("ERROR: ...")] then [return int(x.data.DP)] *)
Definition fallback_DP (x : Sample) (name : string) : M Z :=
  exec emit (Print (ErrGenotypeCount name)) ; ret (DP (data x)).

(** [get_alt_count_std] *)
Definition get_alt_count_std (num_gt : Z) (x : Sample) (name : string) : M Z :=
  match AD (data x) with
  | ADscalar _ => raise TypeError
  | ADlist ads =>
      if negb (num_gt =? Z.of_nat (length ads)) then fallback_DP x name
      else match ads !! 1%nat with
           | Some ad => ret ad
           | None => raise IndexError
           end
  end.

(** [get_alt_count_clc] *)
Definition get_alt_count_clc (num_gt : Z) (x : Sample) (name : string) : M Z :=
  let ads := CLCAD2 (data x) in
  if negb (num_gt =? Z.of_nat (length ads)) then fallback_DP x name
  else match ads !! 1%nat with
       | Some ad => ret ad
       | None => raise IndexError
       end.

(** [get_alt_count_pbaa] *)
Definition get_alt_count_pbaa (x : Sample) (name : string) : M Z :=
  let GTs := gt_alleles x in
  if (length GTs =? 1)%nat then
    match AD (data x) with
    | ADlist _ => fallback_DP x name
    | ADscalar ad => ret ad
    end
  else
    match AD (data x) with
    | ADscalar _ => fallback_DP x name
    | ADlist ads =>
        if negb (length ads =? length GTs)%nat then fallback_DP x name
        else ret (fold_left
                    (fun alt_count '(gt, ad) =>
                       if String.eqb gt "1" then alt_count + ad else alt_count)
                    (zip GTs ads) 0)
    end.

Inductive vtype : Type := SUB | INS | DEL.

Definition type_of_delta (delta : Z) : vtype :=
  if delta =? 0 then SUB else if 0 <? delta then INS else DEL.

(** The annotation-derived branch of the support resolution. *)
Definition support_from_vcf (prefix : string) (vcf_type : option string)
    (v : VariantCall) : M (Z * Z) :=
  match samples v with
  | [] => raise IndexError
  | x :: _ =>
      let name := prefix +:+ ":" +:+ str (POS v) in
      let num_gt := Z.of_nat (length (ALT v)) + 1 in
      if bool_decide (vcf_type = Some "pbaa") then
        do alt_count <-- get_alt_count_pbaa x name ; ret (DP (data x), alt_count)
      else if bool_decide (vcf_type = Some "CLC") then
        do alt_count <-- get_alt_count_clc num_gt x name ; ret (DP (data x), alt_count)
      else if bool_decide (vcf_type = Some "bcftools") then
        match INFO_DP v with
        | None => raise (KeyErrorName "DP")
        | Some total_cov =>
            match INFO_DP4 v with
            | None => raise (KeyErrorName "DP4")
            | Some dp4 =>
                match dp4 !! 2%nat, dp4 !! 3%nat with
                | Some fwd, Some rev => ret (total_cov, fwd + rev)
                | _, _ => raise IndexError
                end
            end
        end
      else
        do alt_count <-- get_alt_count_std num_gt x name ; ret (DP (data x), alt_count)
  end.

(** The pileup-derived branch. [info_per_pos] is [None] when the name was
    never bound. *)
Definition support_from_pileup (info_per_pos : option (gmap Z MPileUpRecord))
    (v : VariantCall) (_ref _alt : string) (delta : Z) : result (Z * Z) :=
  match info_per_pos with
  | None => Raise (NameError "info_per_pos")
  | Some info =>
      match info !! (POS v - 1) with
      | None => Raise (KeyError (POS v - 1))
      | Some mrec =>
          let total_cov := cov mrec in
          match type_of_delta delta with
          | SUB =>
              match _alt with
              | EmptyString => Raise IndexError
              | String a _ =>
                  let a0 := String a EmptyString in
                  Ok (total_cov,
                      counter_get (counts mrec) a0
                      + counter_get (counts mrec) (lower a0))
              end
          | INS =>
              let tmp := "+" +:+ str delta in
              Ok (total_cov,
                  counter_get (counts mrec) (tmp +:+ tail _alt)
                  + counter_get (counts mrec) (tmp +:+ lower (tail _alt)))
          | DEL =>
              let tmp := str delta in
              Ok (total_cov,
                  counter_get (counts mrec) (tmp +:+ tail _ref)
                  + counter_get (counts mrec) (tmp +:+ lower (tail _ref)))
          end
      end
  end.

(** [int -> float], as the arithmetic does it for a mixed operation: the
    nearest binary64, and [OverflowError] from [2^1024 - 2^970] on. *)
Definition float_of_int (z : Z) : result float :=
  if Z.abs z <? 2 ^ 1024 - 2 ^ 970
  then Ok (SF2Prim (SpecFloat.binary_normalize 53 1024 z 0 false))
  else Raise OverflowError.

(** [alt_count * 1. / total_cov] *)
Definition alt_frequency (alt_count total_cov : Z) : result float :=
  bind (float_of_int alt_count) (fun a =>
  let numerator := PrimFloat.mul a 1%float in
  bind (float_of_int total_cov) (fun t =>
  if total_cov =? 0 then Raise ZeroDivisionError
  else Ok (PrimFloat.div numerator t))).

(** [f < z] for a float and an int, which Python compares exactly. *)
Definition float_lt_int (f : float) (z : Z) : bool :=
  match Prim2SF f with
  | SpecFloat.S754_nan => false
  | SpecFloat.S754_infinity negative => negative
  | SpecFloat.S754_zero _ => 0 <? z
  | SpecFloat.S754_finite negative m e =>
      let mant := if negative then Z.neg m else Z.pos m in
      if 0 <=? e then mant * 2 ^ e <? z else mant <? z * 2 ^ (- e)
  end.

(** [q < min_qual] *)
Definition pynum_lt_int (q : pynum) (z : Z) : bool :=
  match q with
  | PyInt a => a <? z
  | PyFloat f => float_lt_int f z
  end.

(** The loops that write an accepted call into the table. *)
Definition apply_SUB (pos : Z) (alt : string) (newseqlist : gmap Z string)
    : gmap Z string :=
  fold_left
    (fun t '(cur, c) => <[pos - 1 + cur := String c EmptyString]> t)
    (zip (seqZ 0 (Z.of_nat (String.length alt))) (list_ascii_of_string alt))
    newseqlist.

Definition apply_INS (pos : Z) (alt : string) (newseqlist : gmap Z string)
    : gmap Z string :=
  <[pos - 1 := alt]> newseqlist.

Fixpoint delete_keys (keys : list Z) (newseqlist : gmap Z string)
    : result (gmap Z string) :=
  match keys with
  | [] => Ok newseqlist
  | k :: keys' =>
      match newseqlist !! k with
      | None => Raise (KeyError k)
      | Some _ => delete_keys keys' (delete k newseqlist)
      end
  end.

Definition apply_DEL (pos delta : Z) (newseqlist : gmap Z string)
    : result (gmap Z string) :=
  delete_keys (seqZ pos (Z.abs delta)) newseqlist.

Section variants.

Variables (prefix : string) (min_coverage : Z) (min_alt_freq : float)
          (min_qual : Z) (use_vcf_info : bool) (vcf_type : option string)
          (info_per_pos : option (gmap Z MPileUpRecord)).

(** The [if use_vcf_info: ... else: ...] block that sets [total_cov] and
    [alt_count]. *)
Definition resolve_support (v : VariantCall) (_ref _alt : string) (delta : Z)
    : M (Z * Z) :=
  if use_vcf_info then support_from_vcf prefix vcf_type v
  else lift (support_from_pileup info_per_pos v _ref _alt delta).

(** The body of [for v in vcf_reader]. *)
Definition process_variant (v : VariantCall) (newseqlist : gmap Z string)
    : M (gmap Z string) :=
  exec (if (1 <? length (ALT v))%nat
        then emit (Print (WarnMultiAlt prefix)) else ret tt) ;
  match ALT v with
  | [] => raise IndexError
  | _alt :: _ =>
      let _ref := REF v in
      let _altlen := Z.of_nat (String.length _alt) in
      let _reflen := Z.of_nat (String.length _ref) in
      let delta := _altlen - _reflen in
      let t := type_of_delta delta in
      do ' (total_cov, alt_count) <-- resolve_support v _ref _alt delta ;
      do alt_freq <-- lift (alt_frequency alt_count total_cov) ;
      if total_cov <? min_coverage then
        exec emit (Print (InfoIgnoreCov prefix (POS v) _ref _alt total_cov)) ;
        ret newseqlist
      else if PrimFloat.ltb alt_freq min_alt_freq then
        exec emit (Print (InfoIgnoreFreq prefix (POS v) _ref _alt alt_freq)) ;
        ret newseqlist
      else
        match QUAL v with
        | Some q =>
            if pynum_lt_int q min_qual then
              exec emit (Print (InfoIgnoreQual prefix (POS v) _ref _alt q)) ;
              ret newseqlist
            else
              exec emit (WriteRecord v) ;
              match t with
              | SUB => ret (apply_SUB (POS v) _alt newseqlist)
              | INS => ret (apply_INS (POS v) _alt newseqlist)
              | DEL => lift (apply_DEL (POS v) delta newseqlist)
              end
        | None =>
            exec emit (Print (WarnQualEmpty prefix (POS v))) ;
            exec emit (WriteRecord v) ;
            match t with
            | SUB => ret (apply_SUB (POS v) _alt newseqlist)
            | INS => ret (apply_INS (POS v) _alt newseqlist)
            | DEL => lift (apply_DEL (POS v) delta newseqlist)
            end
        end
  end.

Fixpoint process_variants (vs : list VariantCall) (newseqlist : gmap Z string)
    : M (gmap Z string) :=
  match vs with
  | [] => ret newseqlist
  | v :: vs' =>
      do t <-- process_variant v newseqlist ; process_variants vs' t
  end.

End variants.

(** [for r in reader: info_per_pos[r.pos] = r] *)
Fixpoint load_pileup (lines : list string) (info_per_pos : gmap Z MPileUpRecord)
    : result (gmap Z MPileUpRecord) :=
  match lines with
  | [] => Ok info_per_pos
  | line :: lines' =>
      bind (parseLine line) (fun r =>
      load_pileup lines' (<[pos r := r]> info_per_pos))
  end.

(** One turn of [for line in open(depth_file)]. *)
Definition depth_line (line : string) (depth_per_pos : gmap Z Z)
    : result (gmap Z Z) :=
  match split_ws (strip line) with
  | [chrom; pos1; count] =>
      bind (int count) (fun c =>
      bind (int pos1) (fun p =>
      Ok (<[p - 1 := c]> depth_per_pos)))
  | _ => Raise (ValueError line)
  end.

Fixpoint load_depth (lines : list string) (depth_per_pos : gmap Z Z)
    : result (gmap Z Z) :=
  match lines with
  | [] => Ok depth_per_pos
  | line :: lines' =>
      bind (depth_line line depth_per_pos) (load_depth lines')
  end.

(** [min(d)] and [max(d)] over the keys of a dict. *)
Definition min_key (d : gmap Z Z) : result Z :=
  match (map_to_list d).*1 with
  | [] => Raise (ValueError "min() arg is an empty sequence")
  | k :: ks => Ok (fold_left Z.min ks k)
  end.

Definition max_key (d : gmap Z Z) : result Z :=
  match (map_to_list d).*1 with
  | [] => Raise (ValueError "max() arg is an empty sequence")
  | k :: ks => Ok (fold_left Z.max ks k)
  end.

(** [dict(zip(range(len(refseq)), list(refseq)))] *)
Definition initial_table (refseq : string) : gmap Z string :=
  list_to_map
    (zip (seqZ 0 (Z.of_nat (String.length refseq)))
         ((fun c => String c EmptyString) <$> list_ascii_of_string refseq)).

(** [pos0 not in depth_per_pos or depth_per_pos[pos0] < min_coverage] *)
Definition low_coverage (depth_per_pos : gmap Z Z) (min_coverage pos0 : Z) : bool :=
  match depth_per_pos !! pos0 with
  | None => true
  | Some d => d <? min_coverage
  end.

(** [for pos0 in keys: newseqlist[pos0] = 'N'] *)
Definition mask_positions (keys : list Z) (newseqlist : gmap Z string)
    : gmap Z string :=
  fold_left (fun t pos0 => <[pos0 := "N"]> t) keys newseqlist.

(** The three masking loops. *)
Definition mask_table (refseq : string) (depth_per_pos : gmap Z Z)
    (min_coverage : Z) : result (gmap Z string) :=
  let n := Z.of_nat (String.length refseq) in
  let t1 :=
    fold_left
      (fun t pos0 =>
         if low_coverage depth_per_pos min_coverage pos0
         then <[pos0 := "N"]> t else t)
      (seqZ 0 n) (initial_table refseq) in
  bind (min_key depth_per_pos) (fun lo =>
  let t2 := mask_positions (seqZ 0 lo) t1 in
  bind (max_key depth_per_pos) (fun hi =>
  Ok (mask_positions (seqZ hi (n - hi)) t2))).

(** [">{0}_frag{1}\n{2}\n".format(newid, i+1, make_seq_from_list(newseqlist, i, j))] *)
Definition frag_record (newid : string) (newseqlist : gmap Z string) (i j : Z)
    : string :=
  ">" +:+ newid +:+ "_frag" +:+ str (i + 1) +:+ nl
      +:+ make_seq_from_list newseqlist i j +:+ nl.

(** [while newseqlist[i]=='N': i += 1] *)
Fixpoint skip_leading_N (fuel : nat) (newseqlist : gmap Z string) (i : Z)
    : result Z :=
  match newseqlist !! i with
  | None => Raise (KeyError i)
  | Some v =>
      if String.eqb v "N" then
        match fuel with
        | O => OutOfFuel
        | S fuel => skip_leading_N fuel newseqlist (i + 1)
        end
      else Ok i
  end.

(** [(j not in newseqlist) or newseqlist[j]!='N'] *)
Definition absent_or_not_N (newseqlist : gmap Z string) (j : Z) : bool :=
  match newseqlist !! j with
  | None => true
  | Some v => negb (String.eqb v "N")
  end.

(** [(i not in newseqlist) or newseqlist[i]=='N'] *)
Definition absent_or_N (newseqlist : gmap Z string) (i : Z) : bool :=
  match newseqlist !! i with
  | None => true
  | Some v => String.eqb v "N"
  end.

(** [while j < len(newseqlist) and (...): j+=1] *)
Fixpoint advance_j (fuel : nat) (newseqlist : gmap Z string) (j : Z) : result Z :=
  if (j <? Z.of_nat (size newseqlist)) && absent_or_not_N newseqlist j then
    match fuel with
    | O => OutOfFuel
    | S fuel => advance_j fuel newseqlist (j + 1)
    end
  else Ok j.

(** [while i < len(newseqlist)-1 and (...): i+=1] *)
Fixpoint advance_i (fuel : nat) (newseqlist : gmap Z string) (i : Z) : result Z :=
  if (i <? Z.of_nat (size newseqlist) - 1) && absent_or_N newseqlist i then
    match fuel with
    | O => OutOfFuel
    | S fuel => advance_i fuel newseqlist (i + 1)
    end
  else Ok i.

(** [while i < len(newseqlist)-1: ...]; [j] is [None] until first bound. *)
Fixpoint frag_loop (fuel : nat) (output2 newid : string)
    (newseqlist : gmap Z string) (i : Z) (j : option Z) : M (Z * option Z) :=
  if i <? Z.of_nat (size newseqlist) - 1 then
    match fuel with
    | O => lift OutOfFuel
    | S fuel =>
        do j' <-- lift (advance_j (size newseqlist) newseqlist (i + 1)) ;
        exec emit (Write output2 (frag_record newid newseqlist i j')) ;
        do i' <-- lift (advance_i (size newseqlist) newseqlist (j' + 1)) ;
        frag_loop fuel output2 newid newseqlist i' (Some j')
    end
  else ret (i, j).

(** The fragment file, from [f = open(output2, 'w')] to [f.close()]. *)
Definition write_fragments (output2 newid : string) (newseqlist : gmap Z string)
    : M unit :=
  exec emit (OpenWrite output2) ;
  do i0 <-- lift (skip_leading_N (size newseqlist) newseqlist 0) ;
  do ' (i, j) <-- frag_loop (size newseqlist) output2 newid newseqlist i0 None ;
  exec match j with
       | None => raise (UnboundLocalError "j")
       | Some j =>
           if i <? j
           then emit (Write output2 (frag_record newid newseqlist i j))
           else ret tt
       end ;
  emit (Close output2).

(** [open(path)] of an input file. *)
Definition open_read {A : Type} (files : gmap string A) (path : string) : M A :=
  match files !! path with
  | None => raise (FileNotFoundError path)
  | Some content => exec emit (OpenRead path) ; ret content
  end.

(** [genVCFcons], first part: from reading the reference to
    [vcf_writer.close()]; gives [refseq] and the final [newseqlist]. *)
Definition build_table (fs : FileSystem)
    (ref_fasta mpileup depth_file vcf_input prefix : string)
    (min_coverage : Z) (min_alt_freq : float) (min_qual : Z)
    (use_vcf_info : bool) (vcf_type : option string)
    : M (string * gmap Z string) :=
  do refseq <-- open_read (fasta_files fs) ref_fasta ;
  do info_per_pos <--
     (if use_vcf_info then
        do lines <-- open_read (text_files fs) mpileup ;
        do info <-- lift (load_pileup lines ∅) ;
        ret (Some info)
      else ret None) ;
  do depth_lines <-- open_read (text_files fs) depth_file ;
  do depth_per_pos <-- lift (load_depth depth_lines ∅) ;
  do masked <-- lift (mask_table refseq depth_per_pos min_coverage) ;
  do calls <-- open_read (vcf_files fs) vcf_input ;
  exec emit (OpenWrite (prefix +:+ ".vcfcons.vcf")) ;
  do newseqlist <--
     process_variants prefix min_coverage min_alt_freq min_qual use_vcf_info
                      vcf_type info_per_pos calls masked ;
  exec emit (Close (prefix +:+ ".vcfcons.vcf")) ;
  ret (refseq, newseqlist).

(** [genVCFcons], second part: the full consensus, then the fragments. *)
Definition write_outputs (prefix newid refseq : string)
    (newseqlist : gmap Z string) : M unit :=
  let output := prefix +:+ ".vcfcons.fasta" in
  let output2 := prefix +:+ ".vcfcons.frag.fasta" in
  exec emit (OpenWrite output) ;
  let newseq :=
    make_seq_from_list newseqlist 0 (Z.of_nat (String.length refseq)) in
  exec emit (Write output (">" +:+ newid +:+ nl +:+ newseq +:+ nl)) ;
  exec emit (Close output) ;
  write_fragments output2 newid newseqlist.

(** [genVCFcons] *)
Definition genVCFcons (fs : FileSystem)
    (ref_fasta mpileup depth_file vcf_input prefix newid : string)
    (min_coverage : Z) (min_alt_freq : float) (min_qual : Z)
    (use_vcf_info : bool) (vcf_type : option string) : M unit :=
  do ' (refseq, newseqlist) <--
     build_table fs ref_fasta mpileup depth_file vcf_input prefix
                 min_coverage min_alt_freq min_qual use_vcf_info vcf_type ;
  write_outputs prefix newid refseq newseqlist.

(** The parsed command line. *)
Record Args : Type := mkArgs {
  args_ref_fasta : string;
  args_prefix : string;
  args_seq_rename_filename : option string;
  args_min_coverage : Z;
  args_min_alt_freq : float;
  args_min_qual : Z;
  args_use_vcf_info : bool;
  args_vcf_type : option string
}.

(** [print("Cannot find input file ..."); sys.exit(-1)] unless the path exists. *)
Definition require_file (fs : FileSystem) (path : string) : M unit :=
  if path_exists fs path then ret tt
  else exec emit (Print (ErrCannotFind path)) ; raise (SystemExit (-1)).

(** [line.strip().split('/')[-2].split('-')[-1]] *)
Definition rename_key (line : string) : result string :=
  match rev (split_on "/" (strip line)) with
  | _ :: part :: _ => Ok (List.last (split_on "-" part) EmptyString)
  | _ => Raise IndexError
  end.

Fixpoint rename_loop (prefix : string) (lines : list string) (newid : option string)
    : result (option string) :=
  match lines with
  | [] => Ok newid
  | line :: lines' =>
      bind (rename_key line) (fun tmp =>
      rename_loop prefix lines'
        (if String.eqb tmp prefix then Some (strip line) else newid))
  end.

(** The body of [if __name__ == "__main__"], after [parse_args]. The name
    [prefix = sys.argv[1]] that the code binds is never read. *)
Definition main (fs : FileSystem) (args : Args) : M unit :=
  if PrimFloat.leb 1 (args_min_alt_freq args)
     || PrimFloat.leb (args_min_alt_freq args) 0
  then exec emit (Print (ErrMinAltFreq (args_min_alt_freq args))) ;
       raise (SystemExit (-1))
  else
    let mpileup := args_prefix args +:+ ".bam.mpileup" in
    let depth_file := args_prefix args +:+ ".bam.depth" in
    let vcf_input := args_prefix args +:+ ".vcf" in
    exec require_file fs mpileup ;
    exec require_file fs depth_file ;
    exec require_file fs vcf_input ;
    do renamed <--
       match args_seq_rename_filename args with
       | None => ret None
       | Some path =>
           do lines <-- open_read (text_files fs) path ;
           lift (rename_loop (args_prefix args) lines None)
       end ;
    let newid := default (args_prefix args +:+ "_VCFconsensus") renamed in
    genVCFcons fs (args_ref_fasta args) mpileup depth_file vcf_input
               (args_prefix args) newid (args_min_coverage args)
               (args_min_alt_freq args) (args_min_qual args)
               (args_use_vcf_info args) (args_vcf_type args).

End VCFCons.

Export VCFCons.

(** ** The coverage filter [get_cov_on_known_high_entropy_pos.py] *)

Module HighEntropy.

(** 0-based positions with high entropy. *)
Definition POSITIONS : list Z :=
  [1237; 3215; 8978; 11283; 14608; 17947; 18058; 18260; 23616; 25777; 28358].

(** The text of [print(pos1, cov)], without the newline that ends it. *)
Definition printed (pos1 cov : Z) : string := str pos1 +:+ " " +:+ str cov.

(** One turn of [for line in open(input_cov)]: the line it prints, if any. *)
Definition cov_line (line : string) : result (option string) :=
  match split_ws (strip line) with
  | [name; pos1; cov] =>
      bind (int pos1) (fun p =>
      bind (int cov) (fun c =>
      Ok (if bool_decide (p - 1 ∈ POSITIONS) then Some (printed p c) else None)))
  | _ => Raise (ValueError line)
  end.

(** The loop; [out] holds the lines printed so far, which an exception
    leaves printed. *)
Fixpoint cov_loop (lines : list string) (out : list string)
    : list string * result unit :=
  match lines with
  | [] => (out, Ok tt)
  | line :: lines' =>
      match cov_line line with
      | Ok (Some text) => cov_loop lines' (out ++ [text])
      | Ok None => cov_loop lines' out
      | Raise e => (out, Raise e)
      | OutOfFuel => (out, OutOfFuel)
      end
  end.

(** The script: [input_cov = sys.argv[1]], then the loop over the file. *)
Definition script (files : gmap string (list string)) (argv : list string)
    : list string * result unit :=
  match argv with
  | _ :: input_cov :: _ =>
      match files !! input_cov with
      | Some lines => cov_loop lines []
      | None => ([], Raise (FileNotFoundError input_cov))
      end
  | _ => ([], Raise IndexError)
  end.

End HighEntropy.

(** ** Vocabulary of the specification *)



(** Both ends of a match moved one character to the right. *)
Definition shift_span (sp : nat * nat) : nat * nat := (S sp.1, S sp.2).

(** The four outcomes of the variant filter, and the filter as the
    specification words it: thresholds in a fixed order, first match wins,
    a missing quality score passes. *)
Inductive verdict : Type :=
| ACCEPT
| REJECT_LOW_COVERAGE
| REJECT_LOW_FREQUENCY
| REJECT_LOW_QUALITY.

Definition spec_classify (total_cov min_coverage : Z)
    (alt_freq min_alt_freq : float) (qual : option pynum) (min_qual : Z)
    : verdict :=
  if total_cov <? min_coverage then REJECT_LOW_COVERAGE
  else if PrimFloat.ltb alt_freq min_alt_freq then REJECT_LOW_FREQUENCY
  else match qual with
       | Some q => if pynum_lt_int q min_qual then REJECT_LOW_QUALITY else ACCEPT
       | None => ACCEPT
       end.

(** What a run shows of a verdict: the line it prints, the record it writes. *)
Definition verdict_events (prefix : string) (v : VariantCall) (_alt : string)
    (total_cov : Z) (alt_freq : float) (vd : verdict) : list event :=
  match vd with
  | REJECT_LOW_COVERAGE =>
      [Print (InfoIgnoreCov prefix (POS v) (REF v) _alt total_cov)]
  | REJECT_LOW_FREQUENCY =>
      [Print (InfoIgnoreFreq prefix (POS v) (REF v) _alt alt_freq)]
  | REJECT_LOW_QUALITY =>
      match QUAL v with
      | Some q => [Print (InfoIgnoreQual prefix (POS v) (REF v) _alt q)]
      | None => []
      end
  | ACCEPT =>
      match QUAL v with
      | Some _ => [WriteRecord v]
      | None => [Print (WarnQualEmpty prefix (POS v)); WriteRecord v]
      end
  end.

(** [len(_alt) - len(_ref)] *)
Definition variant_delta (v : VariantCall) (_alt : string) : Z :=
  Z.of_nat (String.length _alt) - Z.of_nat (String.length (REF v)).

(** The table after a verdict: edited when accepted, untouched otherwise. *)
Definition verdict_table (v : VariantCall) (_alt : string)
    (newseqlist : gmap Z string) (vd : verdict) : result (gmap Z string) :=
  match vd with
  | ACCEPT =>
      match type_of_delta (variant_delta v _alt) with
      | SUB => Ok (apply_SUB (POS v) _alt newseqlist)
      | INS => Ok (apply_INS (POS v) _alt newseqlist)
      | DEL => apply_DEL (POS v) (variant_delta v _alt) newseqlist
      end
  | _ => Ok newseqlist
  end.

Definition multi_alt_warning (prefix : string) (v : VariantCall) : list event :=
  if (1 <? length (ALT v))%nat then [Print (WarnMultiAlt prefix)] else [].

(** Integers of this magnitude and above do not convert to a float. *)
Definition float_limit : Z := 2 ^ 1024 - 2 ^ 970.

(** The [f.write] calls of the fragment loop, one per span [i, j). *)
Definition fragment_writes (output2 newid : string) (t : gmap Z string)
    (spans : list (Z * Z)) : list event :=
  (λ '(i, j), Write output2 (frag_record newid t i j)) <$> spans.

(** One turn of the loop of [make_seq_from_list]. *)
Definition seq_step (t : gmap Z string) (seq : string) (i : Z) : string :=
  match t !! i with Some v => seq +:+ v | None => seq end.

(** One turn of a masking loop that masks the positions satisfying [P]. *)
Definition mask_if (P : Z → bool) (t : gmap Z string) (pos0 : Z) : gmap Z string :=
  if P pos0 then <[pos0 := "N"]> t else t.



(** The pileup file loads whenever the run reads it at all. *)
Definition pileup_loads (fs : FileSystem) (mpileup : string)
    (use_vcf_info : bool) : Prop :=
  use_vcf_info = true →
  ∃ lines info,
    text_files fs !! mpileup = Some lines ∧ load_pileup lines ∅ = Ok info.

(** The reference with the base at position [hi] replaced by N. *)
Definition masked_at (hi : Z) (chars : list ascii) : list ascii :=
  imap (λ i c, if bool_decide (Z.of_nat i = hi) then "N"%char else c) chars.

(** A run that is not cut short by the fuel of a loop. *)
Definition terminates {A : Type} (m : M A) : Prop :=
  ∀ tr, (m tr).2 ≠ OutOfFuel.

(** Unfolding of the monad of runs. *)
Ltac munfold :=
  unfold run, open_read, require_file, lift, ret, emit, raise, bindM.

(** ** Vocabulary of the further properties *)

(** [all(P(c) for c in s)] *)
Fixpoint string_forall (P : ascii → bool) (s : string) : bool :=
  match s with
  | EmptyString => true
  | String c s' => P c && string_forall P s'
  end.

(** The one-character tokens of the read-base encoding. *)
Definition simple_token (c : ascii) : bool := char_in c "<>*$.,ATCGNatcgn".

(** The characters the decoder knows. *)
Definition known_token (c : ascii) : bool := char_in c "<>*^$.,ATCGNatcgn-+".

(** The allele a one-character token records, if any. *)
Definition simple_key (self_ref : string) (c : ascii) : option string :=
  if Ascii.eqb c "." then Some self_ref
  else if Ascii.eqb c "," then Some (lower self_ref)
  else if char_in c "ATCGNatcgn" then Some (String c EmptyString)
  else None.

(** The counts after a run of one-character tokens. *)
Fixpoint simple_counts (self_ref : string) (s : string) (counts : gmap string Z)
    : gmap string Z :=
  match s with
  | EmptyString => counts
  | String c s' =>
      simple_counts self_ref s'
        (match simple_key self_ref c with
         | Some k => counter_incr counts k
         | None => counts
         end)
  end.

(** The number of characters other than the read-end marker. *)
Fixpoint simple_coverage (s : string) : Z :=
  match s with
  | EmptyString => 0
  | String c s' => (if Ascii.eqb c "$" then 0 else 1) + simple_coverage s'
  end.

(** The ten one-base keys of the allele-count mapping. *)
Definition base_keys : list string :=
  (λ c, String c EmptyString) <$> list_ascii_of_string "ATCGNatcgn".

(** The total of the counts under the keys of a list. *)
Definition keys_total (keys : list string) (counts : gmap string Z) : Z :=
  foldr (λ k acc, counter_get counts k + acc) 0 keys.

(** The number of keys of a list with a positive count. *)
Definition keys_positive (keys : list string) (counts : gmap string Z) : Z :=
  foldr (λ k acc, (if Z.ltb 0 (counter_get counts k) then 1 else 0) + acc) 0 keys.

(** What a well-formed line of the depth file adds to the table. *)
Definition depth_entry (line : string) : option (Z * Z) :=
  match split_ws (strip line) with
  | [chrom; pos1; count] =>
      match int count, int pos1 with
      | Ok c, Ok p => Some (p - 1, c)
      | _, _ => None
      end
  | _ => None
  end.

(** A reference position that the masking loops set to N. *)
Definition is_masked (depth_per_pos : gmap Z Z) (min_coverage lo hi p : Z) : bool :=
  bool_decide (hi ≤ p ∨ p < lo) || low_coverage depth_per_pos min_coverage p.

(** The reference with every masked position replaced by N. *)
Definition mask_reference (depth_per_pos : gmap Z Z) (min_coverage lo hi : Z)
    (refseq : string) : string :=
  string_of_list_ascii
    (imap (λ i c, if is_masked depth_per_pos min_coverage lo hi (Z.of_nat i)
                  then "N"%char else c)
          (list_ascii_of_string refseq)).


(** The file system with the lines of one text file replaced. *)
Definition with_text_file (fs : FileSystem) (path : string) (lines : list string)
    : FileSystem :=
  {| fasta_files := fasta_files fs;
     text_files := <[path := lines]> (text_files fs);
     vcf_files := vcf_files fs |}.

(** An entry that is present and is not the placeholder N. *)
Definition called (t : gmap Z string) (i : Z) : Prop :=
  ∃ v, t !! i = Some v ∧ v ≠ "N".

(** The spans of the fragment loop from the position [lo] on: no called
    entry before a span or between two spans, each span starts at a called
    entry, holds no N, and ends at an N or at the number of entries; after
    the last span no called entry is left before the last index. *)
Fixpoint fragment_spans (t : gmap Z string) (lo : Z) (spans : list (Z * Z)) : Prop :=
  match spans with
  | [] => ∀ k, lo ≤ k < Z.of_nat (size t) - 1 → ¬ called t k
  | (a, b) :: rest =>
      lo ≤ a ∧ a < b ∧ b ≤ Z.of_nat (size t)
      ∧ (∀ k, lo ≤ k < a → ¬ called t k)
      ∧ called t a
      ∧ (∀ k, a ≤ k < b → t !! k ≠ Some "N")
      ∧ (b = Z.of_nat (size t) ∨ t !! b = Some "N")
      ∧ fragment_spans t (b + 1) rest
  end.

(** [sep not in s] *)
Definition free_of (sep : ascii) (s : string) : bool :=
  string_forall (λ c, negb (Ascii.eqb c sep)) s.

(** The three inputs that [__main__] derives from the sample prefix. *)
Definition derived_inputs (args : Args) : list string :=
  [args_prefix args +:+ ".bam.mpileup";
   args_prefix args +:+ ".bam.depth";
   args_prefix args +:+ ".vcf"].

(** The frequency threshold passes the check of [__main__]. *)
Definition frequency_accepted (args : Args) : Prop :=
  PrimFloat.leb 1 (args_min_alt_freq args)
  || PrimFloat.leb (args_min_alt_freq args) 0 = false.

(** The call of [genVCFcons] that [__main__] ends with, for a given [newid]. *)
Definition main_call (fs : FileSystem) (args : Args) (newid : string) : M unit :=
  genVCFcons fs (args_ref_fasta args)
             (args_prefix args +:+ ".bam.mpileup")
             (args_prefix args +:+ ".bam.depth")
             (args_prefix args +:+ ".vcf")
             (args_prefix args) newid (args_min_coverage args)
             (args_min_alt_freq args) (args_min_qual args)
             (args_use_vcf_info args) (args_vcf_type args).

(** The position and the coverage that a well-formed line of a coverage
    file holds. *)
Definition cov_entry (line : string) : option (Z * Z) :=
  match split_ws (strip line) with
  | [name; pos1; cov] =>
      match int pos1, int cov with
      | Ok p, Ok c => Some (p, c)
      | _, _ => None
      end
  | _ => None
  end.

(** The lines printed for a list of entries: those at one of the listed
    positions, in the order of the file. *)
Definition high_entropy_report (entries : list (Z * Z)) : list string :=
  (λ e, HighEntropy.printed e.1 e.2)
    <$> filter (λ e, e.1 - 1 ∈ HighEntropy.POSITIONS) entries.

(** ** Concrete inputs *)

Definition tab : string := String "009" EmptyString.

(** A line of a depth file. *)
Definition depth_row (pos1 count : string) : string :=
  "ref" +:+ tab +:+ pos1 +:+ tab +:+ count +:+ nl.

(** A reference of length 10, depth 10 at the 0-based positions 2 to 7 and
    nothing else, no calls. *)
Definition scenario_files : FileSystem :=
  {| fasta_files := {["ref.fasta" := "ACGTACGTAC"]};
     text_files :=
       {["s.bam.depth" :=
           [depth_row "3" "10"; depth_row "4" "10"; depth_row "5" "10";
            depth_row "6" "10"; depth_row "7" "10"; depth_row "8" "10"]]};
     vcf_files := {["s.vcf" := []]} |}.

(** A reference of length 4 whose depth file records the 0-based positions
    0, 1 and 5 only; no calls. *)
Definition gap_files : FileSystem :=
  {| fasta_files := {["ref.fasta" := "ACGT"]};
     text_files :=
       {["s.bam.depth" :=
           [depth_row "1" "5"; depth_row "2" "5"; depth_row "6" "5"]]};
     vcf_files := {["s.vcf" := []]} |}.

(** A reference of length 4 with depth 5 at its four positions and at the
    position after them; no calls. *)
Definition covered_files : FileSystem :=
  {| fasta_files := {["ref.fasta" := "ACGT"]};
     text_files :=
       {["s.bam.depth" :=
           [depth_row "1" "5"; depth_row "2" "5"; depth_row "3" "5";
            depth_row "4" "5"; depth_row "5" "5"]]};
     vcf_files := {["s.vcf" := []]} |}.

(** A reference of length 4 with depth 1 everywhere; no calls. *)
Definition shallow_files : FileSystem :=
  {| fasta_files := {["ref.fasta" := "ACGT"]};
     text_files :=
       {["s.bam.depth" :=
           [depth_row "1" "1"; depth_row "2" "1"; depth_row "3" "1";
            depth_row "4" "1"]]};
     vcf_files := {["s.vcf" := []]} |}.

(** The call C -> T at the 1-based position 2, quality 200, with the
    annotations DP = 10 and AD = 2,8. *)
Definition call_C2T : VariantCall :=
  {| POS := 2; REF := "C"; ALT := ["T"]; QUAL := Some (PyInt 200);
     samples := [{| data := {| DP := 10; AD := ADlist [2; 8]; CLCAD2 := [] |};
                    gt_alleles := ["0"; "1"] |}];
     INFO_DP := None; INFO_DP4 := None |}.

(** A pileup line of seven fields. *)
Definition pileup_row (pos1 ref cov readBase quals : string) : string :=
  "ref" +:+ tab +:+ pos1 +:+ tab +:+ ref +:+ tab +:+ cov +:+ tab
        +:+ readBase +:+ tab +:+ quals +:+ tab +:+ quals +:+ nl.




(** The table of the reference ACGT after the deletion of position 2. *)
Definition trailing_table : gmap Z string :=
  {[0 := "A"; 1 := "C"; 3 := "T"]}.

(** A sample in annotation-derived mode: reference of length 10 with depth
    10 on every position (and one past the end), and four calls: an
    insertion, a call of low quality, a two-alternate call of low frequency
    and a deletion of two bases without a quality score. *)
Definition annotated (dp : Z) (ad : list Z) : Sample :=
  {| data := {| DP := dp; AD := ADlist ad; CLCAD2 := [] |};
     gt_alleles := ["0"; "1"] |}.

Definition call_insertion : VariantCall :=
  {| POS := 3; REF := "G"; ALT := ["GTT"]; QUAL := Some (PyFloat 150.5);
     samples := [annotated 10 [1; 9]]; INFO_DP := None; INFO_DP4 := None |}.

Definition call_low_quality : VariantCall :=
  {| POS := 4; REF := "T"; ALT := ["A"]; QUAL := Some (PyFloat 99.5);
     samples := [annotated 10 [1; 9]]; INFO_DP := None; INFO_DP4 := None |}.

Definition call_low_frequency : VariantCall :=
  {| POS := 4; REF := "T"; ALT := ["A"; "C"]; QUAL := Some (PyInt 500);
     samples := [annotated 10 [6; 4; 0]]; INFO_DP := None; INFO_DP4 := None |}.

Definition call_deletion : VariantCall :=
  {| POS := 6; REF := "CGT"; ALT := ["C"]; QUAL := None;
     samples := [annotated 10 [1; 9]]; INFO_DP := None; INFO_DP4 := None |}.

Definition four_call_files : FileSystem :=
  {| fasta_files := {["ref.fasta" := "ACGTACGTAC"]};
     text_files :=
       {["s.bam.depth" := (λ p, depth_row (str p) "10") <$> seqZ 1 11;
         "s.bam.mpileup" := [pileup_row "6" "C" "3" ".-2GT,-2gt^I." "III"]]};
     vcf_files :=
       {["s.vcf" := [call_insertion; call_low_quality; call_low_frequency;
                     call_deletion]]} |}.

Definition lone_table : gmap Z string :=
  list_to_map [(0, "N"); (1, "N"); (2, "G")].

(** The sample of [covered_files] with a pileup file and a renaming file. *)
Definition rename_files (lines : list string) : FileSystem :=
  {| fasta_files := fasta_files covered_files;
     text_files :=
       <["names.txt" := lines]>
         (<["s.bam.mpileup" := []]> (text_files covered_files));
     vcf_files := vcf_files covered_files |}.

Definition sample_args (rename : option string) : Args :=
  {| args_ref_fasta := "ref.fasta"; args_prefix := "s";
     args_seq_rename_filename := rename; args_min_coverage := 4;
     args_min_alt_freq := 0.5; args_min_qual := 100;
     args_use_vcf_info := false; args_vcf_type := None |}.

Definition cov_row (pos1 cov : string) : string :=
  "NC_045512.2" +:+ tab +:+ pos1 +:+ tab +:+ cov +:+ nl.

(** The record of the pileup line of [four_call_files]. *)
Definition example_record : MPileUpRecord :=
  {| chr := "ref"; pos := 5; ref := "C"; cov := 3; nCov := 2; nType := 2;
     readBase := ".-2GT,-2gt^I."; baseQuals := "III"; alnQuals := "III";
     counts := {["C" := 1; "c" := 1; "-2GT" := 1; "-2gt" := 1]} |}.

(** The masked table of [scenario_files] for a minimum coverage of 4. *)
Definition scenario_table : gmap Z string :=
  list_to_map
    (zip (seqZ 0 10) ["N"; "N"; "G"; "T"; "A"; "C"; "G"; "N"; "N"; "N"]).

(** A sample whose depth file is empty. *)
Definition empty_depth_files : FileSystem :=
  {| fasta_files := {["ref.fasta" := "ACGT"]};
     text_files := {["s.bam.depth" := []]};
     vcf_files := {["s.vcf" := []]} |}.

(** A call on a position that no read covers: DP = 0 and AD = 0,0. *)
Definition call_uncovered : VariantCall :=
  {| POS := 2; REF := "C"; ALT := ["T"]; QUAL := Some (PyInt 200);
     samples := [annotated 0 [0; 0]]; INFO_DP := None; INFO_DP4 := None |}.

(** ** Sanity checks of the embedding *)

Example decode_matches :
  parse_readBase "A" "....,,,," 8 = Ok ({["A" := 4; "a" := 4]}, 8, 2).
Proof. vm_compute. reflexivity. Qed.

Example decode_insertion :
  parse_readBase "C" "A+2AT" 1 = Ok ({["A" := 1; "+2AT" := 1]}, 1, 1).
Proof. vm_compute. reflexivity. Qed.

Example decode_deletion :
  parse_readBase "T" "T-1A$" 1 = Ok ({["T" := 1; "-1A" := 1]}, 1, 1).
Proof. vm_compute. reflexivity. Qed.

Example int_examples :
  (int " -1_0 ", int "1__0", int "+", int "007")
  = (Ok (-10), Raise (ValueError "1__0"), Raise (ValueError "+"), Ok 7).
Proof. vm_compute. reflexivity. Qed.

Example split_examples :
  (split_ws "  a b  c ", split_on "/" "a//b", split_on "009" "", strip "  a b ")
  = (["a"; "b"; "c"], ["a"; ""; "b"], [""], "a b").
Proof. vm_compute. reflexivity. Qed.

Example rename_key_example :
  rename_key "hCoV-19/USA/IA-CDC-LC0005111/2021" = Ok "LC0005111".
Proof. vm_compute. reflexivity. Qed.

(** A pileup line whose encoding has two deletions and a read start. *)
Example parseLine_example :
  parseLine (pileup_row "6" "c" "3" ".-2GT,-2gt^I." "III")
  = Ok {| chr := "ref"; pos := 5; ref := "C"; cov := 3; nCov := 2; nType := 2;
          readBase := ".-2GT,-2gt^I."; baseQuals := "III"; alnQuals := "III";
          counts := {["C" := 1; "c" := 1; "-2GT" := 1; "-2gt" := 1]} |}.
Proof. vm_compute. reflexivity. Qed.

(** A whole run in annotation-derived mode: the insertion and the deletion
    are accepted, the other two calls are rejected with their reasons; the
    deletion shortens the table to 8 entries, so the bases at the positions
    8 and 9 are in the full consensus and in no fragment. *)
Example four_call_run :
  run (genVCFcons four_call_files "ref.fasta" "s.bam.mpileup" "s.bam.depth"
         "s.vcf" "s" "id" 4 0.5 100 true None)
  = ([OpenRead "ref.fasta"; OpenRead "s.bam.mpileup"; OpenRead "s.bam.depth";
      OpenRead "s.vcf"; OpenWrite "s.vcfcons.vcf";
      WriteRecord call_insertion;
      Print (InfoIgnoreQual "s" 4 "T" "A" (PyFloat 99.5));
      Print (WarnMultiAlt "s");
      Print (InfoIgnoreFreq "s" 4 "T" "A" 0x1.999999999999ap-2);
      Print (WarnQualEmpty "s" 6);
      WriteRecord call_deletion;
      Close "s.vcfcons.vcf";
      OpenWrite "s.vcfcons.fasta";
      Write "s.vcfcons.fasta" (">id" +:+ nl +:+ "ACGTTTACAC" +:+ nl);
      Close "s.vcfcons.fasta";
      OpenWrite "s.vcfcons.frag.fasta";
      Write "s.vcfcons.frag.fasta" (">id_frag1" +:+ nl +:+ "ACGTTTAC" +:+ nl);
      Close "s.vcfcons.frag.fasta"],
     Ok ()).
Proof. vm_compute. reflexivity. Qed.

(** ** Facts about the decoder *)

Section decoder_facts.

(** The search does not depend on where the string starts: one character
    more in front moves the match by one. *)
Lemma rex_search_shift s p k :
  rex_search s (S p) (S k) = shift_span <$> rex_search s p k.
Proof.
  revert p. induction s as [|c s IH]; intros p; cbn [rex_search]; [done|].
  change (S k <=? S p)%nat with (k <=? p)%nat.
  destruct ((k <=? p)%nat && isdigit c); [done|apply IH].
Qed.

(** A match starts at or after the start index and is not empty. *)
Lemma rex_search_bounds s p k a b :
  rex_search s p k = Some (a, b) → (p ≤ a)%nat ∧ (k ≤ a)%nat ∧ (a < b)%nat.
Proof.
  revert p. induction s as [|c s IH]; intros p; cbn [rex_search]; [done|].
  destruct ((k <=? p)%nat && isdigit c) eqn:Hc.
  - intros [= <- <-]. apply andb_prop in Hc as [Hk Hd].
    apply Nat.leb_le in Hk. cbn [digit_run]. rewrite Hd. lia.
  - intros H. apply IH in H. lia.
Qed.

Lemma read_indel_shift c s k :
  read_indel (String c s) (S k) = map_result shift_span (read_indel s k).
Proof.
  unfold read_indel. cbn [rex_search]. rewrite andb_false_l.
  rewrite rex_search_shift.
  destruct (rex_search s 0 k) as [[a b]|]; simpl; [|done].
  unfold slice. simpl.
  destruct (int (substring a (b - a) s)); simpl; done.
Qed.

(** [read_indel] moves the cursor strictly forward. *)
Lemma read_indel_bounds s k a b :
  read_indel s k = Ok (a, b) → (k ≤ a)%nat ∧ (a < b)%nat.
Proof.
  unfold read_indel.
  destruct (rex_search s 0 k) as [[ms me]|] eqn:Hs; [|done].
  apply rex_search_bounds in Hs.
  destruct (int _); simpl; [|done..].
  intros [= <- <-]. lia.
Qed.

Lemma read_indel_fuel s k : read_indel s k ≠ OutOfFuel.
Proof.
  unfold read_indel. destruct (rex_search s 0 k) as [[ms me]|]; [|done].
  unfold int. destruct (match strip _ with | "" => _ | _ => _ end); done.
Qed.

(** Scanning from the cursor [S i] of [c :: s] is scanning from [i] of [s]. *)
Lemma scan_shift r c s fuel i counts n :
  scan r (String c s) fuel (S i) counts n = scan r s fuel i counts n.
Proof.
  revert i counts n. induction fuel as [|fuel IH]; intros i counts n.
  - simpl. done.
  - cbn [scan]. cbn [String.get]. 
    destruct (String.get i s) as [b|]; [|done].
    change (S i + 1)%nat with (S (i + 1)). change (S i + 3)%nat with (S (i + 3)).
    rewrite !IH, read_indel_shift.
    destruct (read_indel s (i + 1)) as [[a b']| |]; cbn [map_result bind shift_span fst snd];
      rewrite ?IH; reflexivity.
Qed.

(** One unit of fuel per remaining character is enough. *)
Lemma scan_enough_fuel r s fuel i counts n :
  (String.length s - i ≤ fuel)%nat → scan r s fuel i counts n ≠ OutOfFuel.
Proof.
  revert i counts n. induction fuel as [|fuel IH]; intros i counts n Hf.
  - cbn [scan]. destruct (String.get i s) eqn:Hg; [|done].
    assert (i < String.length s)%nat; [|lia].
    clear -Hg. revert i Hg. induction s; intros [|i]; simpl; try done; try lia.
    intros H. apply IHs in H. lia.
  - cbn [scan]. destruct (String.get i s) as [b|] eqn:Hg; [|done].
    pose proof (read_indel_fuel s (i + 1)) as Hnf.
    destruct (read_indel s (i + 1)) as [[a b']| |] eqn:Hr; [|clear Hnf|done].
    + apply read_indel_bounds in Hr.
      repeat case_match; try done; apply IH; lia.
    + repeat case_match; try done; apply IH; lia.
Qed.

(** More fuel does not change a finished scan. *)
Lemma scan_more_fuel r s fuel fuel' i counts n :
  (fuel ≤ fuel')%nat →
  scan r s fuel i counts n ≠ OutOfFuel →
  scan r s fuel' i counts n = scan r s fuel i counts n.
Proof.
  revert fuel' i counts n.
  induction fuel as [|fuel IH]; intros fuel' i counts n Hle.
  - destruct fuel'; cbn [scan]; destruct (String.get i s); done.
  - destruct fuel' as [|fuel']; [lia|]. cbn [scan].
    destruct (String.get i s) as [b|]; [|done].
    destruct (read_indel s (i + 1)) as [[a b']| |];
      repeat case_match; try done; apply IH; lia.
Qed.

Lemma scan_fuel_irrelevant r s fuel i counts n :
  (String.length s - i ≤ fuel)%nat →
  scan r s fuel i counts n = scan r s (String.length s - i) i counts n.
Proof.
  intros Hf. apply scan_more_fuel; [done|]. by apply scan_enough_fuel.
Qed.






(** One turn of the loop at a read-start marker. *)
Lemma scan_read_start r s fuel i counts n :
  String.get i s = Some "^"%char →
  scan r s (S fuel) i counts n = scan r s fuel (i + 3) counts (n + 1).
Proof. intros H. cbn [scan]. rewrite H. reflexivity. Qed.

End decoder_facts.

(** ** Facts about the position-indexed table *)

Section table_facts.

Implicit Types (t : gmap Z string) (i k p : Z).

(** Keys [0 .. i-1] all present: at least [i] entries. *)
Lemma prefix_present_size t i :
  0 ≤ i → (∀ k, 0 ≤ k < i → is_Some (t !! k)) → i ≤ Z.of_nat (size t).
Proof.
  intros Hi Hall.
  assert (Hsub : (list_to_set (seqZ 0 i) : gset Z) ⊆ dom t).
  { intros k Hk. apply elem_of_list_to_set, elem_of_seqZ in Hk.
    apply elem_of_dom, Hall. lia. }
  apply subseteq_size in Hsub.
  rewrite size_dom, size_list_to_set, length_seqZ in Hsub by apply NoDup_seqZ.
  lia.
Qed.

(** The first loop of the fragment scan stops within [size t] turns: it
    only walks over keys that are present. *)
Lemma skip_leading_N_fuel fuel t i :
  0 ≤ i → (∀ k, 0 ≤ k < i → is_Some (t !! k)) →
  (Z.of_nat (size t) ≤ Z.of_nat fuel + i) →
  skip_leading_N fuel t i ≠ OutOfFuel.
Proof.
  revert i. induction fuel as [|fuel IH]; intros i Hi Hall Hf; cbn [skip_leading_N].
  - destruct (t !! i) as [v|] eqn:Hv; [|done].
    destruct (String.eqb v "N"); [|done].
    assert (i + 1 ≤ Z.of_nat (size t)); [|lia].
    apply prefix_present_size; [lia|]. intros k Hk.
    destruct (decide (k = i)) as [->|]; [by rewrite Hv|apply Hall; lia].
  - destruct (t !! i) as [v|] eqn:Hv; [|done].
    destruct (String.eqb v "N"); [|done].
    apply IH; [lia| |lia]. intros k Hk.
    destruct (decide (k = i)) as [->|]; [by rewrite Hv|apply Hall; lia].
Qed.

(** On a table of Ns the first loop can only end at an absent key. *)
Lemma skip_leading_N_all_N fuel t i :
  map_Forall (λ _ v, v = "N") t →
  skip_leading_N fuel t i = OutOfFuel
  ∨ ∃ k, i ≤ k ∧ t !! k = None ∧ skip_leading_N fuel t i = Raise (KeyError k).
Proof.
  intros Hall. revert i. induction fuel as [|fuel IH]; intros i; cbn [skip_leading_N].
  - destruct (t !! i) as [v|] eqn:Hv.
    + apply Hall in Hv as ->. by left.
    + right. exists i. split; [lia|done].
  - destruct (t !! i) as [v|] eqn:Hv.
    + apply Hall in Hv as ->. cbn.
      destruct (IH (i + 1)) as [?|(k & ? & ? & ?)]; [by left|].
      right. exists k. split; [lia|done].
    + right. exists i. split; [lia|done].
Qed.

(** What the first loop returns or raises. *)
Lemma skip_leading_N_result fuel t i :
  match skip_leading_N fuel t i with
  | Ok i' => i ≤ i'
  | Raise e => ∃ k, i ≤ k ∧ t !! k = None ∧ e = KeyError k
  | OutOfFuel => True
  end.
Proof.
  revert i. induction fuel as [|fuel IH]; intros i; cbn [skip_leading_N].
  - destruct (t !! i) as [v|] eqn:Hv; [destruct (String.eqb v "N"); [done|lia]|].
    exists i. split; [lia|done].
  - destruct (t !! i) as [v|] eqn:Hv.
    + destruct (String.eqb v "N"); [|lia].
      specialize (IH (i + 1)). destruct (skip_leading_N fuel t (i + 1)); [lia| |done].
      destruct IH as (k & ? & ? & ?). exists k. split; [lia|done].
    + exists i. split; [lia|done].
Qed.

(** The two inner loops return, and never move the cursor backward; the
    end of a fragment is at most the number of entries. *)
Lemma advance_j_spec fuel t (j : Z) :
  (Z.of_nat (size t) - j ≤ Z.of_nat fuel) →
  ∃ j', advance_j fuel t j = Ok j' ∧ j ≤ j' ∧ (j' ≤ Z.of_nat (size t) ∨ j' = j).
Proof.
  revert j. induction fuel as [|fuel IH]; intros j Hf; cbn [advance_j].
  - destruct (Z.ltb_spec j (Z.of_nat (size t))); [lia|].
    cbn [andb]. exists j. split; [done|lia].
  - destruct (Z.ltb_spec j (Z.of_nat (size t))); cbn [andb].
    + destruct (absent_or_not_N t j).
      * destruct (IH (j + 1)) as (j' & -> & ? & ?); [lia|].
        exists j'. split; [done|lia].
      * exists j. split; [done|lia].
    + exists j. split; [done|lia].
Qed.

Lemma advance_i_spec fuel t i :
  (Z.of_nat (size t) - 1 - i ≤ Z.of_nat fuel) →
  ∃ i', advance_i fuel t i = Ok i' ∧ i ≤ i'.
Proof.
  revert i. induction fuel as [|fuel IH]; intros i Hf; cbn [advance_i].
  - destruct (Z.ltb_spec i (Z.of_nat (size t) - 1)); [lia|].
    cbn [andb]. exists i. split; [done|lia].
  - destruct (Z.ltb_spec i (Z.of_nat (size t) - 1)); cbn [andb].
    + destruct (absent_or_N t i).
      * destruct (IH (i + 1)) as (i' & -> & ?); [lia|].
        exists i'. split; [done|lia].
      * exists i. split; [done|lia].
    + exists i. split; [done|lia].
Qed.

(** The outer loop writes one record per span, each span ending at or
    before the number of entries, and leaves [j] behind [i]. *)
Lemma frag_loop_spec fuel output2 newid t i (j : option Z) tr :
  0 ≤ i → (Z.of_nat (size t) - 1 - i ≤ Z.of_nat fuel) →
  ∃ spans i' j',
    frag_loop fuel output2 newid t i j tr
    = (tr ++ fragment_writes output2 newid t spans, Ok (i', j'))
    ∧ Forall (λ '(a, b), i ≤ a ∧ a < b ∧ b ≤ Z.of_nat (size t)) spans
    ∧ i ≤ i'
    ∧ (spans = [] ∧ j' = j ∨ ∃ b, j' = Some b ∧ b < i').
Proof.
  revert i j tr. induction fuel as [|fuel IH]; intros i j tr Hi Hf; cbn [frag_loop].
  - destruct (Z.ltb_spec i (Z.of_nat (size t) - 1)); [lia|].
    exists [], i, j. unfold ret. cbn. rewrite app_nil_r.
    split; [done|]. split; [constructor|]. split; [lia|]. by left.
  - destruct (Z.ltb_spec i (Z.of_nat (size t) - 1)).
    + destruct (advance_j_spec (size t) t (i + 1)) as (j1 & Hj & ? & ?); [lia|].
      destruct (advance_i_spec (size t) t (j1 + 1)) as (i1 & Hi1 & ?); [lia|].
      unfold bindM, lift, emit. rewrite Hj, Hi1.
      destruct (IH i1 (Some j1) (tr ++ [Write output2 (frag_record newid t i j1)]))
        as (spans & i' & j' & -> & Hall & Hle & Hj'); [lia..|].
      exists ((i, j1) :: spans), i', j'. split; [|split; [|split]].
      * cbn. by rewrite <- app_assoc.
      * constructor; [lia|]. eapply Forall_impl; [done|]. intros [a b]. lia.
      * lia.
      * right. destruct Hj' as [[-> ->]|(b & -> & ?)]; [|eauto].
        exists j1. split; [done|lia].
    + exists [], i, j. unfold ret. cbn. rewrite app_nil_r.
    split; [done|]. split; [constructor|]. split; [lia|]. by left.
Qed.

(** The fragment file as a whole: a list of spans and either a normal end
    or an exception before the first fragment. *)
Lemma write_fragments_spec output2 newid t tr :
  ∃ spans closing r,
    write_fragments output2 newid t tr
    = (tr ++ OpenWrite output2 :: fragment_writes output2 newid t spans ++ closing, r)
    ∧ Forall (λ '(a, b), 0 ≤ a ∧ a < b ∧ b ≤ Z.of_nat (size t)) spans
    ∧ (r = Ok () ∧ closing = [Close output2]
       ∨ closing = [] ∧ spans = [] ∧
         (r = Raise (UnboundLocalError "j")
          ∨ ∃ k, 0 ≤ k ∧ t !! k = None ∧ r = Raise (KeyError k))).
Proof.
  unfold write_fragments, bindM, emit, lift.
  pose proof (skip_leading_N_fuel (size t) t 0) as Hfuel.
  pose proof (skip_leading_N_result (size t) t 0) as Hres.
  destruct (skip_leading_N (size t) t 0) as [i0|e|] eqn:Hskip.
  - destruct (frag_loop_spec (size t) output2 newid t i0 None (tr ++ [OpenWrite output2]))
      as (spans & i' & j' & -> & Hall & Hle & Hj'); [lia..|].
    destruct Hj' as [[-> ->]|(b & -> & Hb)].
    + exists [], [], (Raise (UnboundLocalError "j")). unfold raise. cbn.
      rewrite app_nil_r. split; [done|]. split; [done|]. right. auto.
    + exists spans, [Close output2], (Ok ()).
      destruct (Z.ltb_spec i' b); [lia|]. unfold ret. cbn.
      rewrite <- !app_assoc. cbn. split; [done|]. split; [|by left].
      eapply Forall_impl; [done|]. intros [a c]. lia.
  - destruct Hres as (k & ? & ? & ->).
    exists [], [], (Raise (KeyError k)). cbn. split; [done|]. split; [done|].
    right. split; [done|]. split; [done|]. right. exists k. done.
  - exfalso. apply Hfuel; [lia| |lia|done]. intros k ?. lia.
Qed.

(** *** [make_seq_from_list] *)

Lemma append_cons (x : ascii) (a b : string) :
  String x a +:+ b = String x (a +:+ b).
Proof. reflexivity. Qed.

Lemma append_nil_l (a : string) : "" +:+ a = a.
Proof. reflexivity. Qed.

Lemma append_assoc (a b c : string) : (a +:+ b) +:+ c = a +:+ (b +:+ c).
Proof.
  induction a as [|x a IH]; [done|]. by rewrite !append_cons, IH.
Qed.

Lemma append_nil_r (a : string) : a +:+ "" = a.
Proof.
  induction a as [|x a IH]; [done|]. by rewrite append_cons, IH.
Qed.

(** The accumulator of [make_seq_from_list] is a prefix of its result. *)
Lemma fold_seq_step_acc t (l : list Z) (acc : string) :
  fold_left (seq_step t) l acc = acc +:+ fold_left (seq_step t) l "".
Proof.
  revert acc. induction l as [|x l IH]; intros acc; cbn [fold_left].
  - by rewrite append_nil_r.
  - rewrite (IH (seq_step t acc x)), (IH (seq_step t "" x)).
    unfold seq_step. destruct (t !! x); [|done].
    by rewrite append_assoc, append_nil_l.
Qed.

Lemma make_seq_app t a b c :
  a ≤ b → b ≤ c →
  make_seq_from_list t a c = make_seq_from_list t a b +:+ make_seq_from_list t b c.
Proof.
  intros Hab Hbc. unfold make_seq_from_list. fold (seq_step t).
  replace (c - a) with ((b - a) + (c - b)) by lia.
  rewrite seqZ_app by lia. rewrite fold_left_app.
  rewrite fold_seq_step_acc. by replace (a + (b - a)) with b by lia.
Qed.

Lemma make_seq_single t p :
  make_seq_from_list t p (p + 1) = default "" (t !! p).
Proof.
  unfold make_seq_from_list. replace (p + 1 - p) with 1 by lia.
  rewrite seqZ_cons, seqZ_nil by lia. cbn [fold_left]. by destruct (t !! p).
Qed.

Lemma make_seq_split t n p v :
  0 ≤ p < n → t !! p = Some v →
  make_seq_from_list t 0 n
  = make_seq_from_list t 0 p +:+ v +:+ make_seq_from_list t (p + 1) n.
Proof.
  intros Hp Hv.
  rewrite (make_seq_app t 0 p n) by lia.
  rewrite (make_seq_app t p (p + 1) n) by lia.
  by rewrite make_seq_single, Hv.
Qed.

Lemma make_seq_ext t t' a b :
  (∀ k, a ≤ k < b → t' !! k = t !! k) →
  make_seq_from_list t' a b = make_seq_from_list t a b.
Proof.
  intros Heq. unfold make_seq_from_list.
  assert (Hin : ∀ k, k ∈ seqZ a (b - a) → t' !! k = t !! k).
  { intros k Hk. apply elem_of_seqZ in Hk. apply Heq. lia. }
  revert Hin. generalize (seqZ a (b - a)). generalize "".
  intros acc l. revert acc. induction l as [|x l IH]; intros acc Hin; [done|].
  cbn [fold_left]. rewrite (Hin x) by (by left).
  apply IH. intros k Hk. apply Hin. by right.
Qed.

(** *** The fragment scan does not depend on entries at or past the size *)

Section beyond_size.

Variables (t : gmap Z string) (p : Z) (v w : string).
Hypothesis Hp : Z.of_nat (size t) ≤ p.
Hypothesis Hv : t !! p = Some v.

Let t' : gmap Z string := <[p := w]> t.

Lemma size_overwrite : size t' = size t.
Proof. apply map_size_insert_Some. by rewrite Hv. Qed.

Lemma lookup_overwrite k : k ≠ p → t' !! k = t !! k.
Proof. intros. by apply lookup_insert_ne. Qed.

Lemma skip_leading_N_overwrite fuel i :
  0 ≤ i → (∀ k, 0 ≤ k < i → is_Some (t !! k)) →
  skip_leading_N fuel t' i = skip_leading_N fuel t i.
Proof.
  revert i. induction fuel as [|fuel IH]; intros i Hi Hall; cbn [skip_leading_N].
  all: assert (i ≠ p) as Hne.
  1,3: intros ->; assert (p + 1 ≤ Z.of_nat (size t)); [|lia];
       apply prefix_present_size; [lia|]; intros k Hk;
       destruct (decide (k = p)) as [->|]; [by rewrite Hv|apply Hall; lia].
  all: rewrite lookup_overwrite by done.
  - done.
  - destruct (t !! i) as [x|] eqn:Hx; [|done].
    destruct (String.eqb x "N"); [|done].
    apply IH; [lia|]. intros k Hk.
    destruct (decide (k = i)) as [->|]; [by rewrite Hx|apply Hall; lia].
Qed.

Lemma advance_j_overwrite fuel (j : Z) :
  advance_j fuel t' j = advance_j fuel t j.
Proof.
  revert j. induction fuel as [|fuel IH]; intros j; cbn [advance_j].
  all: rewrite size_overwrite.
  all: destruct (Z.ltb_spec j (Z.of_nat (size t))); cbn [andb]; [|done].
  all: unfold absent_or_not_N; rewrite lookup_overwrite by lia.
  - done.
  - by rewrite IH.
Qed.

Lemma advance_i_overwrite fuel (i : Z) :
  advance_i fuel t' i = advance_i fuel t i.
Proof.
  revert i. induction fuel as [|fuel IH]; intros i; cbn [advance_i].
  all: rewrite size_overwrite.
  all: destruct (Z.ltb_spec i (Z.of_nat (size t) - 1)); cbn [andb]; [|done].
  all: unfold absent_or_N; rewrite lookup_overwrite by lia.
  - done.
  - by rewrite IH.
Qed.

Lemma frag_record_overwrite newid (i j : Z) :
  j ≤ Z.of_nat (size t) →
  frag_record newid t' i j = frag_record newid t i j.
Proof.
  intros Hj. unfold frag_record.
  rewrite (make_seq_ext t t' i j); [done|].
  intros k Hk. apply lookup_overwrite. lia.
Qed.

Lemma frag_loop_overwrite fuel output2 newid (i : Z) (j : option Z) tr :
  0 ≤ i →
  frag_loop fuel output2 newid t' i j tr = frag_loop fuel output2 newid t i j tr.
Proof.
  revert i j tr. induction fuel as [|fuel IH]; intros i j tr Hi; cbn [frag_loop].
  all: rewrite size_overwrite.
  all: destruct (Z.ltb_spec i (Z.of_nat (size t) - 1)); [|done].
  - done.
  - unfold bindM, lift, emit. rewrite advance_j_overwrite.
    destruct (advance_j_spec (size t) t (i + 1)) as (j1 & Hj & ? & ?); [lia|].
    rewrite Hj. rewrite advance_i_overwrite.
    rewrite frag_record_overwrite by lia.
    destruct (advance_i_spec (size t) t (j1 + 1)) as (i1 & Hi1 & ?); [lia|].
    rewrite Hi1. apply IH. lia.
Qed.

Lemma write_fragments_overwrite output2 newid tr :
  write_fragments output2 newid t' tr = write_fragments output2 newid t tr.
Proof.
  unfold write_fragments, bindM, emit, lift. rewrite size_overwrite.
  rewrite skip_leading_N_overwrite by (try lia; intros; lia).
  pose proof (skip_leading_N_result (size t) t 0) as Hres.
  destruct (skip_leading_N (size t) t 0) as [i0| |]; [|done..].
  rewrite frag_loop_overwrite by done.
  destruct (frag_loop_spec (size t) output2 newid t i0 None (tr ++ [OpenWrite output2]))
      as (spans & i' & j' & -> & Hall & Hle & Hj'); [lia..|].
  destruct j' as [b|]; [|done].
  destruct (Z.ltb_spec i' b); [|done].
  destruct Hj' as [[_ [=]]|(b' & [= <-] & ?)]. lia.
Qed.

End beyond_size.

End table_facts.

(** ** Facts about coverage masking *)

Section masking_facts.

Implicit Types (t : gmap Z string) (d : gmap Z Z) (p k : Z).

Lemma length_list_ascii_of_string (s : string) :
  length (list_ascii_of_string s) = String.length s.
Proof. induction s as [|c s IH]; cbn; [done|]. by rewrite IH. Qed.

Lemma get_list_ascii (s : string) (i : nat) :
  String.get i s = list_ascii_of_string s !! i.
Proof.
  revert i. induction s as [|c s IH]; intros [|i]; cbn; done.
Qed.

Lemma initial_table_lookup (refseq : string) p :
  0 ≤ p →
  initial_table refseq !! p
  = (λ c, String c EmptyString) <$> String.get (Z.to_nat p) refseq.
Proof.
  intros Hp. unfold initial_table.
  rewrite <- length_list_ascii_of_string.
  rewrite <- (length_fmap (λ c, String c EmptyString)).
  rewrite list_to_map_zip_seqZ, lookup_map_seqZ_0 by done.
  by rewrite list_lookup_fmap, get_list_ascii.
Qed.


(** What a masking loop leaves at a position. *)
Lemma mask_if_keeps_N P t (keys : list Z) p :
  t !! p = Some "N" → fold_left (mask_if P) keys t !! p = Some "N".
Proof.
  revert t. induction keys as [|k keys IH]; intros t Ht; [done|].
  cbn [fold_left]. apply IH. unfold mask_if.
  destruct (P k); [|done].
  destruct (decide (k = p)) as [->|]; [apply lookup_insert_eq|].
  by rewrite lookup_insert_ne.
Qed.

Lemma mask_if_hit P t (keys : list Z) p :
  p ∈ keys → P p = true → fold_left (mask_if P) keys t !! p = Some "N".
Proof.
  revert t. induction keys as [|k keys IH]; intros t Hin HP.
  - by apply elem_of_nil in Hin.
  - cbn [fold_left]. apply elem_of_cons in Hin as [->|Hin]; [|by apply IH].
    apply mask_if_keeps_N. unfold mask_if. rewrite HP. apply lookup_insert_eq.
Qed.

Lemma mask_if_miss P t (keys : list Z) p :
  (p ∉ keys ∨ P p = false) → fold_left (mask_if P) keys t !! p = t !! p.
Proof.
  revert t. induction keys as [|k keys IH]; intros t Hmiss; [done|].
  cbn [fold_left]. rewrite IH.
  - unfold mask_if. destruct (P k) eqn:HP; [|done].
    apply lookup_insert_ne. intros ->. destruct Hmiss as [Hn|?]; [|congruence].
    apply Hn. by left.
  - destruct Hmiss as [Hn|?]; [left|by right]. intros ?. apply Hn. by right.
Qed.

Lemma mask_positions_hit t (keys : list Z) p :
  p ∈ keys → mask_positions keys t !! p = Some "N".
Proof. intros. by apply (mask_if_hit (λ _, true)). Qed.

Lemma mask_positions_miss t (keys : list Z) p :
  p ∉ keys → mask_positions keys t !! p = t !! p.
Proof. intros. apply (mask_if_miss (λ _, true)). by left. Qed.

(** [min] and [max] over the keys bound every key. *)
Lemma fold_min_le (l : list Z) (a : Z) :
  fold_left Z.min l a ≤ a ∧ ∀ x, x ∈ l → fold_left Z.min l a ≤ x.
Proof.
  revert a. induction l as [|y l IH]; intros a; cbn [fold_left].
  - split; [lia|]. intros x Hx. by apply elem_of_nil in Hx.
  - destruct (IH (Z.min a y)) as [H1 H2]. split; [lia|].
    intros x [->|Hx]%elem_of_cons; [lia|by apply H2].
Qed.

Lemma fold_max_ge (l : list Z) (a : Z) :
  a ≤ fold_left Z.max l a ∧ ∀ x, x ∈ l → x ≤ fold_left Z.max l a.
Proof.
  revert a. induction l as [|y l IH]; intros a; cbn [fold_left].
  - split; [lia|]. intros x Hx. by apply elem_of_nil in Hx.
  - destruct (IH (Z.max a y)) as [H1 H2]. split; [lia|].
    intros x [->|Hx]%elem_of_cons; [lia|by apply H2].
Qed.

Lemma min_key_le d lo k :
  min_key d = Ok lo → is_Some (d !! k) → lo ≤ k.
Proof.
  unfold min_key. intros Hlo [x Hx].
  apply elem_of_map_to_list in Hx.
  apply (list_elem_of_fmap_2 fst) in Hx. cbn in Hx.
  destruct ((map_to_list d).*1) as [|a l]; [done|].
  injection Hlo as <-. destruct (fold_min_le l a) as [H1 H2].
  apply elem_of_cons in Hx as [->|Hx]; [done|by apply H2].
Qed.

Lemma max_key_ge d hi k :
  max_key d = Ok hi → is_Some (d !! k) → k ≤ hi.
Proof.
  unfold max_key. intros Hhi [x Hx].
  apply elem_of_map_to_list in Hx.
  apply (list_elem_of_fmap_2 fst) in Hx. cbn in Hx.
  destruct ((map_to_list d).*1) as [|a l]; [done|].
  injection Hhi as <-. destruct (fold_max_ge l a) as [H1 H2].
  apply elem_of_cons in Hx as [->|Hx]; [done|by apply H2].
Qed.

Lemma min_key_defined d hi : max_key d = Ok hi → ∃ lo, min_key d = Ok lo.
Proof.
  unfold max_key, min_key. destruct ((map_to_list d).*1); [done|eauto].
Qed.


(** The masked table at a reference position: N from the last recorded
    depth position on, before the first one, and where the depth is missing
    or low; the reference base elsewhere. *)
Lemma mask_table_lookup (refseq : string) d (min_coverage lo hi : Z) p :
  min_key d = Ok lo → max_key d = Ok hi →
  0 ≤ p < Z.of_nat (String.length refseq) →
  ∃ t, mask_table refseq d min_coverage = Ok t
       ∧ t !! p = if bool_decide (hi ≤ p ∨ p < lo) || low_coverage d min_coverage p
                  then Some "N"
                  else (λ c, String c EmptyString) <$> String.get (Z.to_nat p) refseq.
Proof.
  intros Hlo Hhi Hp. unfold mask_table. rewrite Hlo, Hhi. cbn [bind].
  eexists. split; [done|].
  set (n := Z.of_nat (String.length refseq)) in *.
  fold (mask_if (low_coverage d min_coverage)).
  change (λ t pos0, if low_coverage d min_coverage pos0 then <[pos0:="N"]> t else t)
    with (mask_if (low_coverage d min_coverage)).
  destruct (decide (hi ≤ p)) as [Hge|Hlt].
  { rewrite bool_decide_eq_true_2 by (by left). cbn [orb].
    apply mask_positions_hit, elem_of_seqZ. lia. }
  rewrite mask_positions_miss by (rewrite elem_of_seqZ; lia).
  destruct (decide (p < lo)) as [Hlo'|Hlo'].
  { rewrite bool_decide_eq_true_2 by (by right). cbn [orb].
    apply mask_positions_hit, elem_of_seqZ. lia. }
  rewrite mask_positions_miss by (rewrite elem_of_seqZ; lia).
  rewrite bool_decide_eq_false_2 by lia. cbn [orb].
  destruct (low_coverage d min_coverage p) eqn:Hc.
  - apply mask_if_hit; [|done]. apply elem_of_seqZ. lia.
  - rewrite mask_if_miss by (by right). apply initial_table_lookup. lia.
Qed.

(** A stretch of the table that holds one character per position reads
    back as these characters. *)
Lemma make_seq_chars t (cs : list ascii) (a : Z) :
  (∀ (i : nat) c, cs !! i = Some c → t !! (a + Z.of_nat i) = Some (String c EmptyString)) →
  make_seq_from_list t a (a + Z.of_nat (length cs)) = string_of_list_ascii cs.
Proof.
  revert a. induction cs as [|c cs IH]; intros a Hcs.
  - cbn. unfold make_seq_from_list. by rewrite seqZ_nil by lia.
  - rewrite (make_seq_app t a (a + 1)) by (cbn [length]; lia).
    rewrite make_seq_single.
    specialize (Hcs 0%nat c eq_refl) as Hc. rewrite Z.add_0_r in Hc. rewrite Hc.
    cbn [default length string_of_list_ascii].
    replace (a + Z.of_nat (S (length cs))) with (a + 1 + Z.of_nat (length cs)) by lia.
    rewrite IH; [done|].
    intros i c' Hi. specialize (Hcs (S i) c' Hi).
    by replace (a + 1 + Z.of_nat i) with (a + Z.of_nat (S i)) by lia.
Qed.

End masking_facts.

(** ** No run is cut short by the fuel *)

Section totality.

Lemma bind_total {A B : Type} (r : result A) (k : A → result B) :
  r ≠ OutOfFuel → (∀ a, k a ≠ OutOfFuel) → bind r k ≠ OutOfFuel.
Proof. destruct r; cbn; auto. Qed.

Lemma int_total (s : string) : int s ≠ OutOfFuel.
Proof.
  unfold int. by destruct (match strip s with | "" => _ | _ => _ end).
Qed.

(** The decoder always returns a record or raises. *)
Lemma parse_readBase_total (self_ref self_readBase : string) (self_cov : Z) :
  parse_readBase self_ref self_readBase self_cov ≠ OutOfFuel.
Proof.
  unfold parse_readBase. apply bind_total.
  - apply scan_enough_fuel. unfold scan_fuel. lia.
  - intros [counts n]. destruct (sanity_ok _ _ _); [|done].
    by destruct (non_indel counts).
Qed.

Lemma MPileUpRecord_init_total c p r cv rb bq aq :
  MPileUpRecord_init c p r cv rb bq aq ≠ OutOfFuel.
Proof.
  unfold MPileUpRecord_init. apply bind_total; [apply parse_readBase_total|].
  by intros [[counts ncov] ntype].
Qed.

Lemma parseLine_total (line : string) : parseLine line ≠ OutOfFuel.
Proof.
  unfold parseLine.
  repeat case_match; try done;
    repeat (apply bind_total; [apply int_total|intros ?]);
    apply MPileUpRecord_init_total.
Qed.

Lemma load_pileup_total (lines : list string) (info : gmap Z MPileUpRecord) :
  load_pileup lines info ≠ OutOfFuel.
Proof.
  revert info. induction lines as [|line lines IH]; intros info; cbn; [done|].
  apply bind_total; [apply parseLine_total|]. intros r. apply IH.
Qed.

Lemma load_depth_total (lines : list string) (depth : gmap Z Z) :
  load_depth lines depth ≠ OutOfFuel.
Proof.
  revert depth. induction lines as [|line lines IH]; intros depth; cbn; [done|].
  apply bind_total; [|intros d; apply IH].
  unfold depth_line. repeat case_match; try done.
  repeat (apply bind_total; [apply int_total|intros ?]). done.
Qed.

Lemma mask_table_total (refseq : string) (depth : gmap Z Z) (min_coverage : Z) :
  mask_table refseq depth min_coverage ≠ OutOfFuel.
Proof.
  unfold mask_table, min_key, max_key.
  destruct ((map_to_list depth).*1); done.
Qed.

Lemma bindM_terminates {A B : Type} (m : M A) (k : A → M B) :
  terminates m → (∀ a, terminates (k a)) → terminates (bindM m k).
Proof.
  intros Hm Hk tr. unfold bindM. specialize (Hm tr).
  destruct (m tr) as [tr' [a| |]]; cbn in *; [apply Hk|done|done].
Qed.

Lemma lift_terminates {A : Type} (r : result A) :
  r ≠ OutOfFuel → terminates (lift r).
Proof. intros Hr tr. exact Hr. Qed.

Lemma ret_terminates {A : Type} (a : A) : terminates (ret a).
Proof. intros tr. done. Qed.

Lemma raise_terminates {A : Type} (e : exn) : terminates (@raise A e).
Proof. intros tr. done. Qed.

Lemma emit_terminates (e : event) : terminates (emit e).
Proof. intros tr. done. Qed.

Lemma open_read_terminates {A : Type} (files : gmap string A) (path : string) :
  terminates (open_read files path).
Proof.
  unfold open_read. destruct (files !! path); [|apply raise_terminates].
  apply bindM_terminates; [apply emit_terminates|intros; apply ret_terminates].
Qed.

Local Ltac terminates_step :=
  first
    [ apply ret_terminates | apply raise_terminates | apply emit_terminates
    | apply open_read_terminates
    | apply bindM_terminates; [|intros ?] ].

Lemma fallback_DP_terminates (x : Sample) (name : string) :
  terminates (fallback_DP x name).
Proof. unfold fallback_DP. repeat terminates_step. Qed.

Lemma support_from_vcf_terminates (prefix : string) (vcf_type : option string)
    (v : VariantCall) :
  terminates (support_from_vcf prefix vcf_type v).
Proof.
  unfold support_from_vcf, get_alt_count_pbaa, get_alt_count_clc,
    get_alt_count_std.
  repeat (case_match; try apply fallback_DP_terminates; repeat terminates_step).
Qed.

Lemma delete_keys_total (keys : list Z) (t : gmap Z string) :
  delete_keys keys t ≠ OutOfFuel.
Proof.
  revert t. induction keys as [|k keys IH]; intros t; cbn; [done|].
  destruct (t !! k); [apply IH|done].
Qed.

Lemma alt_frequency_total (alt_count total_cov : Z) :
  alt_frequency alt_count total_cov ≠ OutOfFuel.
Proof.
  unfold alt_frequency, float_of_int. repeat case_match; cbn; try done.
  all: repeat case_match; done.
Qed.

Lemma process_variant_terminates (prefix : string) (min_coverage : Z)
    (min_alt_freq : float) (min_qual : Z) (use_vcf_info : bool)
    (vcf_type : option string) (info_per_pos : option (gmap Z MPileUpRecord))
    (v : VariantCall) (t : gmap Z string) :
  terminates (process_variant prefix min_coverage min_alt_freq min_qual
                use_vcf_info vcf_type info_per_pos v t).
Proof.
  unfold process_variant.
  apply bindM_terminates; [case_match; terminates_step|intros _].
  destruct (ALT v) as [|_alt alts]; [terminates_step|].
  cbn zeta. apply bindM_terminates.
  { unfold resolve_support. destruct use_vcf_info;
      [apply support_from_vcf_terminates|apply lift_terminates].
    unfold support_from_pileup. repeat case_match; done. }
  intros [total_cov alt_count].
  apply bindM_terminates; [apply lift_terminates, alt_frequency_total|].
  intros alt_freq.
  repeat (case_match; repeat terminates_step);
    apply lift_terminates, delete_keys_total.
Qed.

Lemma process_variants_terminates (prefix : string) (min_coverage : Z)
    (min_alt_freq : float) (min_qual : Z) (use_vcf_info : bool)
    (vcf_type : option string) (info_per_pos : option (gmap Z MPileUpRecord))
    (vs : list VariantCall) (t : gmap Z string) :
  terminates (process_variants prefix min_coverage min_alt_freq min_qual
                use_vcf_info vcf_type info_per_pos vs t).
Proof.
  revert t. induction vs as [|v vs IH]; intros t; cbn [process_variants].
  - terminates_step.
  - apply bindM_terminates; [apply process_variant_terminates|apply IH].
Qed.

Lemma write_fragments_terminates (output2 newid : string) (t : gmap Z string) :
  terminates (write_fragments output2 newid t).
Proof.
  intros tr.
  destruct (write_fragments_spec output2 newid t tr)
    as (spans & closing & r & -> & _ & Hr).
  cbn [snd].
  destruct Hr as [[-> _]|(_ & _ & [->|(? & _ & _ & ->)])]; done.
Qed.

(** [genVCFcons] always returns or raises. *)
Theorem genVCFcons_terminates (fs : FileSystem)
    (ref_fasta mpileup depth_file vcf_input prefix newid : string)
    (min_coverage : Z) (min_alt_freq : float) (min_qual : Z)
    (use_vcf_info : bool) (vcf_type : option string) :
  terminates (genVCFcons fs ref_fasta mpileup depth_file vcf_input prefix newid
                min_coverage min_alt_freq min_qual use_vcf_info vcf_type).
Proof.
  unfold genVCFcons, build_table, write_outputs.
  repeat first
    [ apply write_fragments_terminates
    | apply process_variants_terminates
    | terminates_step
    | apply lift_terminates;
      first [apply load_pileup_total | apply load_depth_total
            | apply mask_table_total]
    | case_match ].
Qed.

End totality.

(** ** The claims *)

(** *** The decoder *)

(** C2 (as amended). A read-start marker [^] consumes itself, the
    mapping-quality byte and the base call after it as one unit of three
    characters: the unit counts once toward coverage and records nothing in
    the allele-count mapping, so decoding [^], a quality byte, a base call
    and [rest] leaves the counts of decoding [rest] and one more than its
    counted coverage. *)
Theorem read_start_consumes_three (self_ref : string) (q b : ascii)
    (rest : string) (counts : gmap string Z) (n : Z) :
  let readBase := String "^" (String q (String b rest)) in
  scan self_ref readBase (scan_fuel readBase) 0 counts n
  = scan self_ref rest (scan_fuel rest) 0 counts (n + 1).
Proof.
  intros readBase. unfold readBase, scan_fuel. cbn [String.length].
  rewrite scan_read_start by reflexivity. cbn [Nat.add]. rewrite !scan_shift.
  apply scan_more_fuel; [lia|]. apply scan_enough_fuel. lia.
Qed.

(** C2 (counterexample). In the encoding [^IT] the base call T after the
    quality byte is counted toward coverage (the declared coverage 1 passes
    the check) but is not recorded: the allele-count mapping stays empty. *)
Lemma read_start_base_not_recorded :
  parse_readBase "A" "^IT" 1 = Ok (∅, 0, 0)
  ∧ ¬ (∃ counts ncov ntype,
         parse_readBase "A" "^IT" 1 = Ok (counts, ncov, ntype)
         ∧ counter_get counts "T" = 1).
Proof.
  assert (Hrun : parse_readBase "A" "^IT" 1 = Ok (∅, 0, 0))
    by (vm_compute; reflexivity).
  split; [exact Hrun|].
  intros (counts & ncov & ntype & Hdec & Hcount).
  rewrite Hrun in Hdec. injection Hdec as <- <- <-.
  vm_compute in Hcount. discriminate Hcount.
Qed.

(** C3 (as amended). Once the scan of the encoding has ended with a counted
    coverage, the decoder raises its assertion error if and only if the
    counted coverage differs from the declared one and the record is not
    the encoding [*] with declared coverage zero. *)
Theorem sanity_check_fatal_iff (self_ref readBase : string) (cov : Z)
    (counts : gmap string Z) (counted : Z) :
  scan self_ref readBase (scan_fuel readBase) 0 ∅ 0 = Ok (counts, counted) →
  parse_readBase self_ref readBase cov = Raise AssertionError
  ↔ counted ≠ cov ∧ ¬ (readBase = "*" ∧ cov = 0).
Proof.
  intros Hscan. unfold parse_readBase. rewrite Hscan. cbn [bind].
  unfold sanity_ok. destruct (non_indel counts) as [ncov ntype].
  destruct (Z.eqb_spec cov counted) as [->|Hne]; cbn [orb].
  - split; [done|]. intros [? _]. done.
  - destruct (String.eqb_spec readBase "*") as [->|Hs]; cbn [andb].
    + destruct (Z.eqb_spec cov 0) as [->|Hz].
      * split; [done|]. intros [_ H]. by destruct H.
      * split; [|done]. intros _. split; [done|]. intros [_ ?]. done.
    + split; [|done]. intros _. split; [done|]. intros [? _]. done.
Qed.

Lemma sanity_check_fatal_iff_witness :
  scan "A" ".." (scan_fuel "..") 0 ∅ 0 = Ok ({["A" := 2]}, 2)
  ∧ (parse_readBase "A" ".." 3 = Raise AssertionError
     ↔ 2 ≠ 3 ∧ ¬ (".." = "*" ∧ 3 = 0)).
Proof.
  split; [vm_compute; reflexivity|].
  apply (sanity_check_fatal_iff "A" ".." 3 {["A" := 2]} 2).
  vm_compute; reflexivity.
Defined.

(** C3 (counterexample). For the encoding [*] with declared coverage zero
    the counted coverage is 1, a mismatch, and the decoder returns a record
    all the same. *)
Lemma deletion_marker_mismatch_not_fatal :
  scan "A" "*" (scan_fuel "*") 0 ∅ 0 = Ok (∅, 1)
  ∧ 1 ≠ 0
  ∧ parse_readBase "A" "*" 0 = Ok (∅, 0, 0)
  ∧ parse_readBase "A" "*" 0 ≠ Raise AssertionError.
Proof.
  split; [vm_compute; reflexivity|]. split; [lia|].
  assert (Hrun : parse_readBase "A" "*" 0 = Ok (∅, 0, 0))
    by (vm_compute; reflexivity).
  split; [exact Hrun|]. rewrite Hrun. discriminate.
Qed.





(** *** The support resolution and the filter *)



(** The frequency is defined for a positive coverage and counts that
    convert to floats. *)
Lemma alt_frequency_defined (alt_count total_cov : Z) :
  0 < total_cov → Z.abs alt_count < float_limit → total_cov < float_limit →
  ∃ alt_freq, alt_frequency alt_count total_cov = Ok alt_freq.
Proof.
  intros Hpos Ha Ht. unfold alt_frequency, float_of_int.
  fold float_limit.
  destruct (Z.ltb_spec (Z.abs alt_count) float_limit); [|lia].
  destruct (Z.ltb_spec (Z.abs total_cov) float_limit); [|lia].
  cbn [bind]. destruct (Z.eqb_spec total_cov 0); [lia|]. eauto.
Qed.

(** C6. For a call whose resolved total coverage is positive (and whose
    counts are small enough to convert to floats), the body of the loop
    does what the classification of the specification says: it tests low
    coverage first, then low frequency, then a present quality score below
    the threshold, and accepts otherwise; an absent quality score is
    accepted after a warning. A rejection prints its reason and leaves the
    table alone; an acceptance writes the record and edits the table. *)
Theorem classification_order (prefix : string) (min_coverage : Z)
    (min_alt_freq : float) (min_qual : Z) (use_vcf_info : bool)
    (vcf_type : option string) (info_per_pos : option (gmap Z MPileUpRecord))
    (v : VariantCall) (newseqlist : gmap Z string) (tr0 tr1 : list event)
    (_alt : string) (alts : list string) (total_cov alt_count : Z) :
  ALT v = _alt :: alts →
  resolve_support prefix use_vcf_info vcf_type info_per_pos v (REF v) _alt
    (variant_delta v _alt) (tr0 ++ multi_alt_warning prefix v)
  = (tr1, Ok (total_cov, alt_count)) →
  0 < total_cov → Z.abs alt_count < float_limit → total_cov < float_limit →
  ∃ alt_freq,
    alt_frequency alt_count total_cov = Ok alt_freq ∧
    let vd := spec_classify total_cov min_coverage alt_freq min_alt_freq
                            (QUAL v) min_qual in
    process_variant prefix min_coverage min_alt_freq min_qual use_vcf_info
                    vcf_type info_per_pos v newseqlist tr0
    = (tr1 ++ verdict_events prefix v _alt total_cov alt_freq vd,
       verdict_table v _alt newseqlist vd).
Proof.
  intros Halt Hres Hpos Ha Ht.
  destruct (alt_frequency_defined alt_count total_cov) as [alt_freq Hf]; [done..|].
  exists alt_freq. split; [done|].
  unfold process_variant. rewrite Halt.
  unfold bindM at 1. unfold multi_alt_warning in Hres. rewrite Halt in Hres.
  assert (Hpre : (if (1 <? length (_alt :: alts))%nat
                  then emit (Print (WarnMultiAlt prefix)) else ret ()) tr0
                 = (tr0 ++ (if (1 <? length (_alt :: alts))%nat
                            then [Print (WarnMultiAlt prefix)] else []), Ok ())).
  { destruct (1 <? length (_alt :: alts))%nat; unfold emit, ret; [done|].
    by rewrite app_nil_r. }
  rewrite Hpre. cbn zeta. unfold bindM at 1.
  unfold variant_delta in Hres. rewrite Hres.
  unfold bindM at 1. unfold lift at 1. rewrite Hf.
  unfold spec_classify, verdict_events, verdict_table, variant_delta.
  destruct (total_cov <? min_coverage); [reflexivity|].
  destruct (PrimFloat.ltb alt_freq min_alt_freq); [reflexivity|].
  destruct (QUAL v) as [q|].
  - destruct (pynum_lt_int q min_qual); [reflexivity|].
    unfold bindM, emit, ret, lift.
    destruct (type_of_delta _); reflexivity.
  - unfold bindM, emit, ret, lift. rewrite <- app_assoc. cbn [app].
    destruct (type_of_delta _); reflexivity.
Qed.

Lemma classification_order_witness :
  ∃ alt_freq,
    alt_frequency 8 10 = Ok alt_freq ∧
    let vd := spec_classify 10 4 alt_freq 0.5 (QUAL call_C2T) 100 in
    process_variant "s" 4 0.5 100 true None None call_C2T
                    (initial_table "ACGT") []
    = ([] ++ verdict_events "s" call_C2T "T" 10 alt_freq vd,
       verdict_table call_C2T "T" (initial_table "ACGT") vd).
Proof.
  apply (classification_order "s" 4 0.5 100 true None None call_C2T
           (initial_table "ACGT") [] [] "T" [] 10 8).
  - reflexivity.
  - vm_compute; reflexivity.
  - lia.
  - vm_compute; reflexivity.
  - vm_compute; reflexivity.
Defined.

(** *** The option check *)

(** C8 (the code at 1). A minimum alternate frequency of exactly 1 makes
    [__main__] print its "must be a fraction between (0,1]" message and exit
    with status -1, before any file is looked for or opened. *)
Theorem min_alt_freq_one_rejected (fs : FileSystem) (ref_fasta prefix : string)
    (seq_rename_filename : option string) (min_coverage min_qual : Z)
    (use_vcf_info : bool) (vcf_type : option string) :
  run (main fs (mkArgs ref_fasta prefix seq_rename_filename min_coverage
                       1%float min_qual use_vcf_info vcf_type))
  = ([Print (ErrMinAltFreq 1%float)], Raise (SystemExit (-1))).
Proof. reflexivity. Qed.

(** *** The consensus *)

(** The first part of a run on an empty call set. *)
Lemma build_table_no_calls (fs : FileSystem)
    (ref_fasta mpileup depth_file vcf_input prefix : string)
    (min_coverage : Z) (min_alt_freq : float) (min_qual : Z)
    (use_vcf_info : bool) (vcf_type : option string)
    (refseq : string) (depth_lines : list string) (depth : gmap Z Z)
    (masked : gmap Z string) :
  fasta_files fs !! ref_fasta = Some refseq →
  pileup_loads fs mpileup use_vcf_info →
  text_files fs !! depth_file = Some depth_lines →
  load_depth depth_lines ∅ = Ok depth →
  mask_table refseq depth min_coverage = Ok masked →
  vcf_files fs !! vcf_input = Some [] →
  ∃ tr, run (build_table fs ref_fasta mpileup depth_file vcf_input prefix
               min_coverage min_alt_freq min_qual use_vcf_info vcf_type)
        = (tr, Ok (refseq, masked)).
Proof.
  intros Hfa Hpl Hdl Hd Hm Hv. unfold build_table. munfold.
  rewrite Hfa; cbn beta iota zeta.
  destruct use_vcf_info.
  - destruct Hpl as (lines & info & Hl & Hi); [done|].
    rewrite Hl; cbn beta iota zeta. rewrite Hi; cbn beta iota zeta.
    rewrite Hdl; cbn beta iota zeta. rewrite Hd; cbn beta iota zeta.
    rewrite Hm; cbn beta iota zeta. rewrite Hv; cbn beta iota zeta.
    cbn [process_variants]. munfold. eauto.
  - rewrite Hdl; cbn beta iota zeta. rewrite Hd; cbn beta iota zeta.
    rewrite Hm; cbn beta iota zeta. rewrite Hv; cbn beta iota zeta.
    cbn [process_variants]. munfold. eauto.
Qed.

(** Whatever happens to the fragments, the full consensus is written. *)
Lemma write_outputs_consensus (prefix newid refseq : string)
    (t : gmap Z string) (tr : list event) :
  Write (prefix +:+ ".vcfcons.fasta")
        (">" +:+ newid +:+ nl
           +:+ make_seq_from_list t 0 (Z.of_nat (String.length refseq)) +:+ nl)
    ∈ (write_outputs prefix newid refseq t tr).1.
Proof.
  unfold write_outputs. munfold. cbn beta iota zeta.
  destruct (write_fragments_spec (prefix +:+ ".vcfcons.frag.fasta") newid t
              (((tr ++ [OpenWrite (prefix +:+ ".vcfcons.fasta")])
                  ++ [Write (prefix +:+ ".vcfcons.fasta")
                        (">" +:+ newid +:+ nl
                           +:+ make_seq_from_list t 0
                                 (Z.of_nat (String.length refseq)) +:+ nl)])
                 ++ [Close (prefix +:+ ".vcfcons.fasta")]))
    as (spans & closing & r & -> & _).
  cbn [fst]. rewrite !elem_of_app. left. left. right. by left.
Qed.

Lemma masked_at_lookup (hi : Z) (chars : list ascii) (i : nat) :
  Z.of_nat i ≠ hi → masked_at hi chars !! i = chars !! i.
Proof.
  intros Hne. unfold masked_at. rewrite list_lookup_imap.
  destruct (chars !! i); [|done]. cbn. by rewrite bool_decide_eq_false_2.
Qed.

(** With [min_coverage = 0] and every position recorded, the masked table
    reads back as the reference, but for the last recorded position. *)
Lemma identity_table (refseq : string) (depth : gmap Z Z) (hi : Z)
    (t : gmap Z string) :
  (∀ p, 0 ≤ p < Z.of_nat (String.length refseq) →
        ∃ dp, depth !! p = Some dp ∧ 0 ≤ dp) →
  max_key depth = Ok hi →
  mask_table refseq depth 0 = Ok t →
  make_seq_from_list t 0 (Z.of_nat (String.length refseq))
  = string_of_list_ascii (masked_at hi (list_ascii_of_string refseq)).
Proof.
  intros Hcov Hhi Ht.
  destruct (min_key_defined depth hi Hhi) as [lo Hlo].
  rewrite <- length_list_ascii_of_string.
  rewrite <- (length_imap
    (λ i c, if bool_decide (Z.of_nat i = hi) then "N"%char else c)).
  fold (masked_at hi (list_ascii_of_string refseq)).
  rewrite <- (Z.add_0_l (Z.of_nat (length _))).
  apply make_seq_chars. intros i c Hc. rewrite Z.add_0_l.
  unfold masked_at in Hc. rewrite list_lookup_imap in Hc.
  destruct (list_ascii_of_string refseq !! i) as [c0|] eqn:Hc0; [|done].
  injection Hc as <-.
  assert (Hi : 0 ≤ Z.of_nat i < Z.of_nat (String.length refseq)).
  { apply lookup_lt_Some in Hc0. rewrite length_list_ascii_of_string in Hc0. lia. }
  destruct (mask_table_lookup refseq depth 0 lo hi (Z.of_nat i) Hlo Hhi Hi)
    as (t' & Ht' & Hlk).
  rewrite Ht in Ht'. injection Ht' as <-. rewrite Hlk, Nat2Z.id, get_list_ascii, Hc0.
  destruct (Hcov _ Hi) as (dp & Hdp & Hnonneg).
  pose proof (min_key_le depth lo (Z.of_nat i) Hlo (mk_is_Some _ _ Hdp)).
  pose proof (max_key_ge depth hi (Z.of_nat i) Hhi (mk_is_Some _ _ Hdp)).
  unfold low_coverage. rewrite Hdp.
  destruct (Z.ltb_spec dp 0); [lia|]. rewrite orb_false_r.
  destruct (decide (Z.of_nat i = hi)) as [Heq|Hne].
  - rewrite !bool_decide_eq_true_2 by lia. done.
  - rewrite !bool_decide_eq_false_2 by lia. done.
Qed.

(** C5 (as amended). With [min_coverage = 0] and no calls, where the depth
    table records a non-negative depth for every reference position, the
    full consensus written to the FASTA file has the length of the
    reference and agrees with it at every position other than the last
    recorded depth position; in particular it is the reference itself when
    that position lies beyond the reference. *)
Theorem identity_where_depth_recorded (fs : FileSystem)
    (ref_fasta mpileup depth_file vcf_input prefix newid : string)
    (min_alt_freq : float) (min_qual : Z) (use_vcf_info : bool)
    (vcf_type : option string)
    (refseq : string) (depth_lines : list string) (depth : gmap Z Z) (hi : Z) :
  fasta_files fs !! ref_fasta = Some refseq →
  pileup_loads fs mpileup use_vcf_info →
  text_files fs !! depth_file = Some depth_lines →
  load_depth depth_lines ∅ = Ok depth →
  vcf_files fs !! vcf_input = Some [] →
  (∀ p, 0 ≤ p < Z.of_nat (String.length refseq) →
        ∃ dp, depth !! p = Some dp ∧ 0 ≤ dp) →
  max_key depth = Ok hi →
  ∃ newseq,
    Write (prefix +:+ ".vcfcons.fasta") (">" +:+ newid +:+ nl +:+ newseq +:+ nl)
      ∈ (run (genVCFcons fs ref_fasta mpileup depth_file vcf_input prefix newid
                0 min_alt_freq min_qual use_vcf_info vcf_type)).1
    ∧ String.length newseq = String.length refseq
    ∧ (∀ i : nat, Z.of_nat i ≠ hi → String.get i newseq = String.get i refseq)
    ∧ (Z.of_nat (String.length refseq) ≤ hi → newseq = refseq).
Proof.
  intros Hfa Hpl Hdl Hd Hv Hcov Hhi.
  destruct (min_key_defined depth hi Hhi) as [lo Hlo].
  assert (∃ t, mask_table refseq depth 0 = Ok t) as [t Ht].
  { unfold mask_table. rewrite Hlo, Hhi. cbn [bind]. eauto. }
  destruct (build_table_no_calls fs ref_fasta mpileup depth_file vcf_input prefix
              0 min_alt_freq min_qual use_vcf_info vcf_type refseq depth_lines
              depth t Hfa Hpl Hdl Hd Ht Hv) as [tr Hbuild].
  exists (string_of_list_ascii (masked_at hi (list_ascii_of_string refseq))).
  assert (Hpos : ∀ i : nat, Z.of_nat i ≠ hi →
            String.get i (string_of_list_ascii
                            (masked_at hi (list_ascii_of_string refseq)))
            = String.get i refseq).
  { intros i Hi.
    rewrite !get_list_ascii, list_ascii_of_string_of_list_ascii.
    by apply masked_at_lookup. }
  split; [|split; [|split]].
  - unfold genVCFcons, run, bindM. unfold run in Hbuild. rewrite Hbuild.
    rewrite <- (identity_table refseq depth hi t Hcov Hhi Ht).
    apply write_outputs_consensus.
  - rewrite <- !length_list_ascii_of_string, list_ascii_of_string_of_list_ascii.
    unfold masked_at. by rewrite length_imap.
  - done.
  - intros Hbeyond. apply get_correct. intros i.
    destruct (decide (Z.of_nat i = hi)) as [Heq|Hne]; [|by apply Hpos].
    rewrite !get_list_ascii, list_ascii_of_string_of_list_ascii.
    rewrite !lookup_ge_None_2; [done| |].
    + rewrite length_list_ascii_of_string. lia.
    + unfold masked_at. rewrite length_imap, length_list_ascii_of_string. lia.
Qed.

(** C9. When every entry of the table is "N", [genVCFcons] writes and closes
    the full consensus FASTA file, opens the fragment file, and then raises
    [KeyError] at the first absent key: no fragment is written and the
    fragment file is not closed. *)
Theorem all_N_fragment_key_error (fs : FileSystem)
    (ref_fasta mpileup depth_file vcf_input prefix newid : string)
    (min_coverage : Z) (min_alt_freq : float) (min_qual : Z)
    (use_vcf_info : bool) (vcf_type : option string)
    (refseq : string) (t : gmap Z string) (tr : list event) :
  run (build_table fs ref_fasta mpileup depth_file vcf_input prefix
         min_coverage min_alt_freq min_qual use_vcf_info vcf_type)
  = (tr, Ok (refseq, t)) →
  map_Forall (λ _ v, v = "N") t →
  ∃ k, 0 ≤ k ∧ t !! k = None ∧
    run (genVCFcons fs ref_fasta mpileup depth_file vcf_input prefix newid
           min_coverage min_alt_freq min_qual use_vcf_info vcf_type)
    = (tr ++ [OpenWrite (prefix +:+ ".vcfcons.fasta");
              Write (prefix +:+ ".vcfcons.fasta")
                    (">" +:+ newid +:+ nl
                       +:+ make_seq_from_list t 0 (Z.of_nat (String.length refseq))
                       +:+ nl);
              Close (prefix +:+ ".vcfcons.fasta");
              OpenWrite (prefix +:+ ".vcfcons.frag.fasta")],
       Raise (KeyError k)).
Proof.
  intros Hbuild Hall.
  destruct (skip_leading_N_all_N (size t) t 0 Hall) as [Hoof|(k & Hk & Hnone & Hskip)].
  { exfalso. revert Hoof. apply skip_leading_N_fuel; [lia| |lia]. intros; lia. }
  exists k. split; [done|]. split; [done|].
  unfold genVCFcons, run, bindM. unfold run in Hbuild. rewrite Hbuild.
  unfold write_outputs, write_fragments. munfold. rewrite Hskip.
  by rewrite <- !app_assoc.
Qed.

(** C10. The fragment scan is bounded by the number of entries of the
    table. When the table has [k >= 1] entries fewer than the reference has
    positions, an entry at a position [p] at or above (reference length - k)
    is part of the full consensus that is written, every fragment that is
    written spans positions below (reference length - k) only, and the
    fragment output is the same whatever that entry holds. *)
Theorem trailing_positions_outside_fragments (prefix newid refseq : string)
    (t : gmap Z string) (k p : Z) (v : string) (tr : list event) :
  let n := Z.of_nat (String.length refseq) in
  let output := prefix +:+ ".vcfcons.fasta" in
  let output2 := prefix +:+ ".vcfcons.frag.fasta" in
  1 ≤ k →
  Z.of_nat (size t) = n - k →
  n - k ≤ p < n →
  t !! p = Some v →
  (∃ spans closing r,
     write_outputs prefix newid refseq t tr
     = (tr ++ [OpenWrite output;
               Write output
                 (">" +:+ newid +:+ nl
                    +:+ (make_seq_from_list t 0 p +:+ v
                           +:+ make_seq_from_list t (p + 1) n)
                    +:+ nl);
               Close output;
               OpenWrite output2]
           ++ fragment_writes output2 newid t spans ++ closing, r)
     ∧ r ≠ OutOfFuel
     ∧ (closing = [] ∨ closing = [Close output2])
     ∧ Forall (λ '(i, j), 0 ≤ i ∧ i < j ∧ j ≤ n - k) spans)
  ∧ (∀ (w : string) (tr' : list event),
       write_fragments output2 newid (<[p := w]> t) tr'
       = write_fragments output2 newid t tr').
Proof.
  intros n output output2 Hk Hsize Hp Hv. split.
  - unfold write_outputs. munfold. cbn beta iota zeta.
    fold n output output2.
    rewrite (make_seq_split t n p v) by (done || lia).
    match goal with
    | |- context [write_fragments output2 newid t ?tr0] =>
        destruct (write_fragments_spec output2 newid t tr0)
          as (spans & closing & r & -> & Hspans & Hr)
    end.
    exists spans, closing, r. split; [|split; [|split]].
    + by rewrite <- !app_assoc.
    + destruct Hr as [[-> _]|(_ & _ & [->|(? & _ & _ & ->)])]; done.
    + destruct Hr as [[_ ->]|(-> & _)]; auto.
    + rewrite <- Hsize. done.
  - intros w tr'. apply (write_fragments_overwrite t p v w); [lia|done].
Qed.

(** C4 (the code at the scenario). The last recorded depth position, 7, is
    masked although its depth is 10: the full consensus is NNGTACGNNN and the
    one fragment, labelled frag3, is GTACG, the 1-based positions 3 to 7. *)
Theorem scenario_masks_last_depth_position :
  run (genVCFcons scenario_files "ref.fasta" "s.bam.mpileup" "s.bam.depth"
         "s.vcf" "s" "s_VCFconsensus" 4 0.5 100 false None)
  = ([OpenRead "ref.fasta"; OpenRead "s.bam.depth"; OpenRead "s.vcf";
      OpenWrite "s.vcfcons.vcf"; Close "s.vcfcons.vcf";
      OpenWrite "s.vcfcons.fasta";
      Write "s.vcfcons.fasta" (">s_VCFconsensus" +:+ nl +:+ "NNGTACGNNN" +:+ nl);
      Close "s.vcfcons.fasta";
      OpenWrite "s.vcfcons.frag.fasta";
      Write "s.vcfcons.frag.fasta"
            (">s_VCFconsensus_frag3" +:+ nl +:+ "GTACG" +:+ nl);
      Close "s.vcfcons.frag.fasta"],
     Ok ()).
Proof. vm_compute. reflexivity. Qed.

(** The slip behind C4, in general: whatever its depth, the last recorded
    depth position is masked when it lies within the reference. *)
Lemma mask_table_masks_last (refseq : string) (depth : gmap Z Z)
    (min_coverage hi : Z) (t : gmap Z string) :
  max_key depth = Ok hi →
  mask_table refseq depth min_coverage = Ok t →
  0 ≤ hi < Z.of_nat (String.length refseq) →
  t !! hi = Some "N".
Proof.
  intros Hhi Ht Hrange.
  destruct (min_key_defined depth hi Hhi) as [lo Hlo].
  destruct (mask_table_lookup refseq depth min_coverage lo hi hi Hlo Hhi Hrange)
    as (t' & Ht' & Hlk).
  rewrite Ht in Ht'. injection Ht' as <-. rewrite Hlk.
  by rewrite bool_decide_eq_true_2 by lia.
Qed.

(** *** Concrete runs *)

(** C5 (counterexample). With [min_coverage = 0] and no calls, the
    reference ACGT comes out as ACNN when the depth file has no line for the
    0-based positions 2 and 3. *)
Lemma uncovered_positions_masked_at_zero :
  run (genVCFcons gap_files "ref.fasta" "s.bam.mpileup" "s.bam.depth" "s.vcf"
         "s" "s_VCFconsensus" 0 0.5 100 false None)
  = ([OpenRead "ref.fasta"; OpenRead "s.bam.depth"; OpenRead "s.vcf";
      OpenWrite "s.vcfcons.vcf"; Close "s.vcfcons.vcf";
      OpenWrite "s.vcfcons.fasta";
      Write "s.vcfcons.fasta" (">s_VCFconsensus" +:+ nl +:+ "ACNN" +:+ nl);
      Close "s.vcfcons.fasta";
      OpenWrite "s.vcfcons.frag.fasta";
      Write "s.vcfcons.frag.fasta" (">s_VCFconsensus_frag1" +:+ nl +:+ "AC" +:+ nl);
      Close "s.vcfcons.frag.fasta"],
     Ok ())
  ∧ "ACNN" ≠ "ACGT".
Proof. split; [vm_compute; reflexivity|discriminate]. Qed.

Lemma identity_where_depth_recorded_witness :
  ∃ newseq,
    Write ("s" +:+ ".vcfcons.fasta")
          (">" +:+ "s_VCFconsensus" +:+ nl +:+ newseq +:+ nl)
      ∈ (run (genVCFcons covered_files "ref.fasta" "s.bam.mpileup"
                "s.bam.depth" "s.vcf" "s" "s_VCFconsensus" 0 0.5 100 false
                None)).1
    ∧ String.length newseq = String.length "ACGT"
    ∧ (∀ i : nat, Z.of_nat i ≠ 4 → String.get i newseq = String.get i "ACGT")
    ∧ (Z.of_nat (String.length "ACGT") ≤ 4 → newseq = "ACGT").
Proof.
  apply (identity_where_depth_recorded covered_files "ref.fasta"
           "s.bam.mpileup" "s.bam.depth" "s.vcf" "s" "s_VCFconsensus" 0.5 100
           false None "ACGT"
           [depth_row "1" "5"; depth_row "2" "5"; depth_row "3" "5";
            depth_row "4" "5"; depth_row "5" "5"]
           {[0 := 5; 1 := 5; 2 := 5; 3 := 5; 4 := 5]} 4).
  - vm_compute; reflexivity.
  - intros Hoff. discriminate Hoff.
  - vm_compute; reflexivity.
  - vm_compute; reflexivity.
  - vm_compute; reflexivity.
  - intros p Hp. exists 5. split; [|lia].
    assert (p = 0 ∨ p = 1 ∨ p = 2 ∨ p = 3) as [-> | [-> | [-> | ->]]]
      by (cbn in Hp; lia); vm_compute; reflexivity.
  - vm_compute; reflexivity.
Defined.

Lemma all_N_fragment_key_error_witness :
  ∃ k, 0 ≤ k
    ∧ ({[0 := "N"; 1 := "N"; 2 := "N"; 3 := "N"]} : gmap Z string) !! k = None
    ∧ run (genVCFcons shallow_files "ref.fasta" "s.bam.mpileup" "s.bam.depth"
             "s.vcf" "s" "s_VCFconsensus" 4 0.5 100 false None)
      = ([OpenRead "ref.fasta"; OpenRead "s.bam.depth"; OpenRead "s.vcf";
          OpenWrite "s.vcfcons.vcf"; Close "s.vcfcons.vcf"]
           ++ [OpenWrite ("s" +:+ ".vcfcons.fasta");
               Write ("s" +:+ ".vcfcons.fasta")
                     (">" +:+ "s_VCFconsensus" +:+ nl
                        +:+ make_seq_from_list
                              {[0 := "N"; 1 := "N"; 2 := "N"; 3 := "N"]} 0
                              (Z.of_nat (String.length "ACGT"))
                        +:+ nl);
               Close ("s" +:+ ".vcfcons.fasta");
               OpenWrite ("s" +:+ ".vcfcons.frag.fasta")],
         Raise (KeyError k)).
Proof.
  apply (all_N_fragment_key_error shallow_files "ref.fasta" "s.bam.mpileup"
           "s.bam.depth" "s.vcf" "s" "s_VCFconsensus" 4 0.5 100 false None
           "ACGT" {[0 := "N"; 1 := "N"; 2 := "N"; 3 := "N"]}).
  - vm_compute; reflexivity.
  - refine (bool_decide_unpack _ _). vm_compute. exact I.
Defined.

Lemma trailing_positions_outside_fragments_witness :
  (∃ spans closing r,
     write_outputs "s" "id" "ACGT" trailing_table []
     = ([] ++ [OpenWrite ("s" +:+ ".vcfcons.fasta");
               Write ("s" +:+ ".vcfcons.fasta")
                 (">" +:+ "id" +:+ nl
                    +:+ (make_seq_from_list trailing_table 0 3 +:+ "T"
                           +:+ make_seq_from_list trailing_table (3 + 1)
                                 (Z.of_nat (String.length "ACGT")))
                    +:+ nl);
               Close ("s" +:+ ".vcfcons.fasta");
               OpenWrite ("s" +:+ ".vcfcons.frag.fasta")]
           ++ fragment_writes ("s" +:+ ".vcfcons.frag.fasta") "id"
                trailing_table spans
           ++ closing, r)
     ∧ r ≠ OutOfFuel
     ∧ (closing = [] ∨ closing = [Close ("s" +:+ ".vcfcons.frag.fasta")])
     ∧ Forall (λ '(i, j), 0 ≤ i ∧ i < j
                          ∧ j ≤ Z.of_nat (String.length "ACGT") - 1) spans)
  ∧ (∀ (w : string) (tr' : list event),
       write_fragments ("s" +:+ ".vcfcons.frag.fasta") "id"
                       (<[3 := w]> trailing_table) tr'
       = write_fragments ("s" +:+ ".vcfcons.frag.fasta") "id"
                         trailing_table tr').
Proof.
  apply (trailing_positions_outside_fragments "s" "id" "ACGT" trailing_table
           1 3 "T" []).
  - lia.
  - vm_compute; reflexivity.
  - cbn; lia.
  - vm_compute; reflexivity.
Defined.

(** The run behind the witness above: the T at position 3 is in the full
    consensus and in no fragment. *)
Example trailing_base_lost :
  run (write_outputs "s" "id" "ACGT" trailing_table)
  = ([OpenWrite "s.vcfcons.fasta";
      Write "s.vcfcons.fasta" (">id" +:+ nl +:+ "ACT" +:+ nl);
      Close "s.vcfcons.fasta";
      OpenWrite "s.vcfcons.frag.fasta";
      Write "s.vcfcons.frag.fasta" (">id_frag1" +:+ nl +:+ "AC" +:+ nl);
      Close "s.vcfcons.frag.fasta"],
     Ok ()).
Proof. vm_compute. reflexivity. Qed.

(** ** Further properties of the code *)

(** *** The decoder, on whole classes of encodings *)

Section decoder_extras.

Lemma char_in_elem (c : ascii) (s : string) :
  char_in c s = true → c ∈ list_ascii_of_string s.
Proof.
  induction s as [|d s IH]; cbn; [done|].
  destruct (Ascii.eqb_spec c d) as [->|]; cbn; [by left|].
  intros H. right. by apply IH.
Qed.

Lemma scan_simple_step (r : string) (c : ascii) (s : string) (counts : gmap string Z) (n : Z) :
  simple_token c = true →
  scan r (String c s) (S (String.length s)) 0 counts n
  = scan r s (String.length s) 0
      (match simple_key r c with Some k => counter_incr counts k | None => counts end)
      (n + (if Ascii.eqb c "$" then 0 else 1)).
Proof.
  intros Hc. apply char_in_elem in Hc. cbn in Hc.
  repeat (apply elem_of_cons in Hc as [->|Hc]);
    [..|by apply elem_of_nil in Hc].
  all: cbn [scan String.get]; cbv [char_in Ascii.eqb Bool.eqb orb simple_key];
    cbn [Nat.add]; rewrite scan_shift; rewrite ?Z.add_0_r; reflexivity.
Qed.

Lemma scan_simple_prefix (r pre s : string) (counts : gmap string Z) (n : Z) :
  string_forall simple_token pre = true →
  scan r (pre +:+ s) (String.length (pre +:+ s)) 0 counts n
  = scan r s (String.length s) 0 (simple_counts r pre counts)
      (n + simple_coverage pre).
Proof.
  revert counts n. induction pre as [|c pre IH]; intros counts n Hpre.
  - cbn. by rewrite Z.add_0_r.
  - cbn in Hpre. apply andb_prop in Hpre as [Hc Hpre].
    rewrite append_cons. cbn [String.length].
    rewrite scan_simple_step by done. rewrite IH by done.
    cbn [simple_counts simple_coverage]. f_equal. lia.
Qed.


Lemma string_length_append (a b : string) :
  String.length (a +:+ b) = (String.length a + String.length b)%nat.
Proof. induction a as [|c a IH]; [done|]. rewrite append_cons. cbn. by rewrite IH. Qed.

Lemma scan_shift_app (r pre s : string) (fuel i : nat) (counts : gmap string Z) (n : Z) :
  scan r (pre +:+ s) fuel (String.length pre + i) counts n = scan r s fuel i counts n.
Proof.
  induction pre as [|c pre IH]; [done|].
  rewrite append_cons. cbn [String.length Nat.add]. by rewrite scan_shift.
Qed.

Lemma rex_search_no_digit (s : string) (p k : nat) :
  string_forall (λ c, negb (isdigit c)) s = true → rex_search s p k = None.
Proof.
  revert p. induction s as [|c s IH]; intros p Hs; cbn [rex_search]; [done|].
  cbn [string_forall] in Hs. apply andb_prop in Hs as [Hc Hs].
  apply negb_true_iff in Hc. rewrite Hc, andb_false_r. by apply IH.
Qed.

Lemma digit_run_app (d tl : string) :
  string_forall isdigit d = true →
  digit_run tl = 0%nat →
  digit_run (d +:+ tl) = String.length d.
Proof.
  intros Hd Htl. induction d as [|c d IH]; [done|].
  cbn [string_forall] in Hd. apply andb_prop in Hd as [Hc Hd].
  rewrite append_cons. cbn [digit_run String.length]. rewrite Hc. by rewrite IH.
Qed.

Lemma substring_prefix (a b : string) :
  substring 0 (String.length a) (a +:+ b) = a.
Proof.
  induction a as [|c a IH]; [by destruct b|].
  rewrite append_cons. cbn. by rewrite IH.
Qed.

(** Reading an indel whose length field directly follows the sign. *)
Lemma read_indel_token (sign c0 : ascii) (d bases rest : string) (num : Z) :
  isdigit sign = false →
  isdigit c0 = true →
  string_forall isdigit d = true →
  digit_run (bases +:+ rest) = 0%nat →
  int (String c0 d) = Ok num →
  read_indel (String sign (String c0 d +:+ bases +:+ rest)) 1
  = Ok (1%nat, (1 + String.length (String c0 d) + Z.to_nat num)%nat).
Proof.
  intros Hsign Hc0 Hd Htl Hint. unfold read_indel.
  cbn [rex_search]. rewrite Hsign, andb_false_r.
  rewrite append_cons. cbn [rex_search]. rewrite Hc0. cbn [Nat.leb andb].
  rewrite <- append_cons.
  rewrite digit_run_app by (done || (cbn [string_forall]; by rewrite Hc0, Hd)).
  unfold slice. replace (1 + String.length (String c0 d) - 1)%nat
    with (String.length (String c0 d)) by lia.
  change (substring 1 ?n (String sign ?s)) with (substring 0 n s).
  rewrite substring_prefix, Hint. reflexivity.
Qed.


Lemma scan_empty (r : string) (fuel : nat) (counts : gmap string Z) (n : Z) :
  scan r "" fuel 0 counts n = Ok (counts, n).
Proof. by destruct fuel. Qed.

End decoder_extras.

(** X2. An encoding made of one-character tokens only (the characters of
    [<>*$.,ATCGNatcgn]): the decoder returns the counts of [simple_counts]
    when the declared coverage is the number of characters other than [$],
    and raises the assertion error for any other declared coverage, the
    pair of [*] and 0 apart. *)
Theorem simple_encoding_decodes (self_ref s : string) (cov : Z) :
  string_forall simple_token s = true →
  (cov = simple_coverage s →
   parse_readBase self_ref s cov
   = Ok (simple_counts self_ref s ∅,
         (non_indel (simple_counts self_ref s ∅)).1,
         (non_indel (simple_counts self_ref s ∅)).2))
  ∧ (cov ≠ simple_coverage s → ¬ (s = "*" ∧ cov = 0) →
     parse_readBase self_ref s cov = Raise AssertionError).
Proof.
  intros Hs. unfold parse_readBase, scan_fuel.
  pose proof (scan_simple_prefix self_ref s "" ∅ 0 Hs) as Hscan.
  rewrite append_nil_r, scan_empty, Z.add_0_l in Hscan. rewrite Hscan.
  cbn [bind]. unfold sanity_ok. split.
  - intros ->. rewrite Z.eqb_refl. cbn [orb].
    by destruct (non_indel _).
  - intros Hne Hstar. destruct (Z.eqb_spec cov (simple_coverage s)); [done|].
    cbn [orb]. destruct (String.eqb_spec s "*") as [->|]; [|done].
    destruct (Z.eqb_spec cov 0) as [->|]; [|done]. by destruct Hstar.
Qed.

Lemma simple_encoding_decodes_witness :
  parse_readBase "A" ".,$T" 3
  = Ok (simple_counts "A" ".,$T" ∅,
        (non_indel (simple_counts "A" ".,$T" ∅)).1,
        (non_indel (simple_counts "A" ".,$T" ∅)).2).
Proof.
  apply (proj1 (simple_encoding_decodes "A" ".,$T" 3 eq_refl)). reflexivity.
Defined.

(** X3. A character outside [<>*^$.,ATCGNatcgn-+] that follows
    one-character tokens is fatal: the decoder raises the exception
    "Unknown ... in readBase!" for that character, whatever the declared
    coverage and whatever comes after. *)
Theorem unknown_character_fatal (self_ref pre rest : string) (c : ascii) (cov : Z) :
  string_forall simple_token pre = true →
  known_token c = false →
  parse_readBase self_ref (pre +:+ String c rest) cov
  = Raise (Exception (UnknownReadBase c)).
Proof.
  intros Hpre Hc. unfold parse_readBase, scan_fuel.
  rewrite scan_simple_prefix by done. cbn [String.length scan String.get].
  unfold known_token in Hc. cbn [char_in] in Hc.
  repeat (apply orb_false_elim in Hc as [? Hc]).
  cbn [char_in].
  repeat match goal with H : Ascii.eqb c _ = false |- _ => rewrite H; clear H end.
  reflexivity.
Qed.

Lemma unknown_character_fatal_witness :
  parse_readBase "A" (".," +:+ String "x" ".") 4
  = Raise (Exception (UnknownReadBase "x")).
Proof.
  apply (unknown_character_fatal "A" ".," "." "x" 4); reflexivity.
Defined.

(** X4. An indel sign [+] or [-] with no digit anywhere after it: the
    search for the length finds nothing, and the attribute access on the
    missing match raises AttributeError. *)
Theorem indel_without_length_fatal (self_ref pre rest : string) (sign : ascii)
    (cov : Z) :
  string_forall simple_token pre = true →
  sign = "+"%char ∨ sign = "-"%char →
  string_forall (λ c, negb (isdigit c)) rest = true →
  parse_readBase self_ref (pre +:+ String sign rest) cov = Raise AttributeError.
Proof.
  intros Hpre Hsign Hrest. unfold parse_readBase, scan_fuel.
  rewrite scan_simple_prefix by done.
  assert (Hri : read_indel (String sign rest) 1 = Raise AttributeError).
  { unfold read_indel. cbn [rex_search Nat.leb andb].
    by rewrite rex_search_no_digit. }
  destruct Hsign as [-> | ->]; cbn [String.length scan String.get];
    cbv [char_in Ascii.eqb Bool.eqb orb]; cbn [Nat.add]; rewrite Hri; reflexivity.
Qed.

Lemma indel_without_length_fatal_witness :
  parse_readBase "A" ("." +:+ String "+" "AT") 2 = Raise AttributeError.
Proof.
  apply (indel_without_length_fatal "A" "." "AT" "+" 2);
    [reflexivity|by left|reflexivity].
Defined.

(** X5. An indel token (a sign, a decimal length, and that many characters)
    after one-character tokens is recorded once under its own text and does
    not count toward the coverage; the scan goes on right after it. *)
Theorem indel_token_recorded (self_ref pre d bases rest : string)
    (sign c0 : ascii) (counts : gmap string Z) (n : Z) :
  let token := String sign (String c0 d +:+ bases) in
  string_forall simple_token pre = true →
  sign = "+"%char ∨ sign = "-"%char →
  isdigit c0 = true →
  string_forall isdigit d = true →
  digit_run (bases +:+ rest) = 0%nat →
  int (String c0 d) = Ok (Z.of_nat (String.length bases)) →
  scan self_ref (pre +:+ token +:+ rest)
       (scan_fuel (pre +:+ token +:+ rest)) 0 counts n
  = scan self_ref rest (scan_fuel rest) 0
         (counter_incr (simple_counts self_ref pre counts) token)
         (n + simple_coverage pre).
Proof.
  intros token Hpre Hsign Hc0 Hd Htl Hint. unfold scan_fuel.
  rewrite scan_simple_prefix by done.
  set (counts1 := simple_counts self_ref pre counts).
  set (n1 := n + simple_coverage pre).
  assert (Htok : token +:+ rest
                 = String sign (String c0 d +:+ bases +:+ rest)).
  { unfold token. by rewrite append_cons, append_assoc. }
  assert (Hsd : isdigit sign = false) by (by destruct Hsign as [-> | ->]).
  pose proof (read_indel_token sign c0 d bases rest _ Hsd Hc0 Hd Htl Hint) as Hri.
  rewrite <- Htok in Hri. rewrite Nat2Z.id in Hri.
  assert (Hend : (1 + String.length (String c0 d) + String.length bases)%nat
                 = String.length token).
  { unfold token. cbn [String.length]. rewrite string_length_append.
    cbn [String.length]. lia. }
  rewrite Hend in Hri.
  assert (Hslice : slice (token +:+ rest) 1 (String.length token)
                   = String c0 d +:+ bases).
  { unfold slice. rewrite Htok.
    change (substring 1 ?k (String sign ?s)) with (substring 0 k s).
    rewrite <- append_assoc.
    replace (String.length token - 1)%nat
      with (String.length (String c0 d +:+ bases))
      by (unfold token; cbn [String.length]; lia).
    apply substring_prefix. }
  assert (Hstep : ∀ fuel,
            scan self_ref (token +:+ rest) (S fuel) 0 counts1 n1
            = scan self_ref (token +:+ rest) fuel (String.length token)
                (counter_incr counts1 token) n1).
  { intros fuel. unfold token at 1 4. rewrite append_cons. fold token.
    cbn [scan String.get]. rewrite <- append_cons. fold token.
    destruct Hsign as [-> | ->];
      cbv [char_in Ascii.eqb Bool.eqb orb]; cbn [Nat.add];
      rewrite Hri, Hslice; reflexivity. }
  rewrite string_length_append. unfold token at 2. cbn [String.length Nat.add].
  rewrite Hstep.
  rewrite <- (Nat.add_0_r (String.length token)).
  rewrite scan_shift_app.
  rewrite scan_fuel_irrelevant by lia. by rewrite Nat.sub_0_r.
Qed.

Lemma indel_token_recorded_witness :
  scan "A" ("." +:+ String "+" ("2" +:+ "AT") +:+ ",")
       (scan_fuel ("." +:+ String "+" ("2" +:+ "AT") +:+ ",")) 0 ∅ 0
  = scan "A" "," (scan_fuel ",") 0
         (counter_incr (simple_counts "A" "." ∅) (String "+" ("2" +:+ "AT")))
         (0 + simple_coverage ".").
Proof.
  apply (indel_token_recorded "A" "." "" "AT" "," "+" "2" ∅ 0);
    [reflexivity|by left|reflexivity..].
Defined.


Section counts_facts.

Implicit Types (c : gmap string Z) (k x : string).

Lemma counter_get_incr c k x :
  counter_get (counter_incr c k) x
  = counter_get c x + (if decide (k = x) then 1 else 0).
Proof.
  unfold counter_incr, counter_get. destruct (decide (k = x)) as [->|Hne].
  - by rewrite lookup_insert_eq.
  - rewrite lookup_insert_ne by done. lia.
Qed.

Lemma keys_total_incr (keys : list string) c k :
  NoDup keys →
  keys_total keys (counter_incr c k)
  = keys_total keys c + (if decide (k ∈ keys) then 1 else 0).
Proof.
  induction 1 as [|x keys Hx Hnd IH]; cbn [keys_total foldr].
  - rewrite decide_False; [lia|]. apply not_elem_of_nil.
  - fold (keys_total keys (counter_incr c k)). fold (keys_total keys c).
    rewrite IH, counter_get_incr.
    destruct (decide (k = x)) as [->|Hne].
    + rewrite (decide_False (P := x ∈ keys)) by done.
      rewrite decide_True by (by left). lia.
    + destruct (decide (k ∈ keys)).
      * rewrite decide_True by (by right). lia.
      * rewrite decide_False; [lia|]. by intros [?|?]%elem_of_cons.
Qed.

Lemma counter_incr_nonneg c k :
  (∀ x, 0 ≤ counter_get c x) → ∀ x, 0 ≤ counter_get (counter_incr c k) x.
Proof.
  intros Hc x. rewrite counter_get_incr. specialize (Hc x).
  destruct (decide (k = x)); lia.
Qed.

Lemma base_keys_NoDup : NoDup base_keys.
Proof. refine (bool_decide_unpack _ _). vm_compute. exact I. Qed.

Lemma indel_key_not_base (sign : ascii) (body : string) :
  sign = "+"%char ∨ sign = "-"%char → String sign body ∉ base_keys.
Proof.
  intros Hsign Hin. cbn in Hin.
  repeat (apply elem_of_cons in Hin as [Hin|Hin];
          [destruct Hsign as [-> | ->]; discriminate Hin|]).
  by apply elem_of_nil in Hin.
Qed.

(** The counts stay non-negative and the one-base keys never hold more
    than the counted coverage. *)
Lemma scan_counts_invariant (r s : string) (fuel i : nat) c (n : Z) c' (n' : Z) :
  scan r s fuel i c n = Ok (c', n') →
  (∀ x, 0 ≤ counter_get c x) → keys_total base_keys c ≤ n →
  (∀ x, 0 ≤ counter_get c' x) ∧ keys_total base_keys c' ≤ n'.
Proof.
  revert i c n. induction fuel as [|fuel IH]; intros i c n; cbn [scan].
  - destruct (String.get i s); [done|]. intros [= <- <-]. done.
  - destruct (String.get i s) as [b|]; [|intros [= <- <-]; done].
    pose proof (keys_total_incr base_keys c) as Hincr.
    pose proof (counter_incr_nonneg c) as Hnn.
    destruct (read_indel s (i + 1)) as [[a e]| |];
      repeat case_match; try done; intros Hscan Hc Hn;
      apply IH in Hscan; try done; try lia; try (by apply Hnn).
    all: rewrite Hincr by apply base_keys_NoDup.
    all: try (case_decide; lia).
    all: rewrite decide_False; [lia|].
    all: apply indel_key_not_base; auto.
Qed.

Lemma non_indel_fold (chars : list ascii) c (a b : Z) :
  fold_left
    (fun '(ncov, ntype) (ch : ascii) =>
       let v := counter_get c (String ch EmptyString) in
       (ncov + v, if Z.ltb 0 v then ntype + 1 else ntype))
    chars (a, b)
  = (a + keys_total ((λ ch, String ch EmptyString) <$> chars) c,
     b + keys_positive ((λ ch, String ch EmptyString) <$> chars) c).
Proof.
  revert a b. induction chars as [|ch chars IH]; intros a b; cbn [fold_left].
  - cbn. f_equal; lia.
  - rewrite IH. cbn [fmap list_fmap keys_total keys_positive foldr].
    fold (keys_total ((λ ch, String ch EmptyString) <$> chars) c).
    fold (keys_positive ((λ ch, String ch EmptyString) <$> chars) c).
    destruct (0 <? counter_get c (String ch "")); f_equal; lia.
Qed.

Lemma non_indel_totals c :
  non_indel c = (keys_total base_keys c, keys_positive base_keys c).
Proof. unfold non_indel. rewrite non_indel_fold. by rewrite !Z.add_0_l. Qed.

Lemma keys_positive_bounds (keys : list string) c :
  (∀ x, 0 ≤ counter_get c x) →
  0 ≤ keys_positive keys c ≤ keys_total keys c
  ∧ keys_positive keys c ≤ Z.of_nat (length keys)
  ∧ 0 ≤ keys_total keys c.
Proof.
  intros Hc. induction keys as [|k keys IH]; cbn [keys_positive keys_total foldr length].
  - lia.
  - fold (keys_positive keys c). fold (keys_total keys c).
    specialize (Hc k). destruct (Z.ltb_spec 0 (counter_get c k)); lia.
Qed.

End counts_facts.

(** X6. Every record the reader returns has [0 <= nType <= nCov <= cov],
    at most ten allele types, and no negative count. *)
Theorem decoded_record_bounds (line : string) (r : MPileUpRecord) :
  parseLine line = Ok r →
  0 ≤ nType r ∧ nType r ≤ nCov r ∧ nCov r ≤ cov r ∧ nType r ≤ 10
  ∧ ∀ k, 0 ≤ counter_get (counts r) k.
Proof.
  assert (Hinit : ∀ c p rf cv rb bq aq r0,
            MPileUpRecord_init c p rf cv rb bq aq = Ok r0 →
            0 ≤ nType r0 ∧ nType r0 ≤ nCov r0 ∧ nCov r0 ≤ cov r0
            ∧ nType r0 ≤ 10 ∧ ∀ k, 0 ≤ counter_get (counts r0) k).
  { intros c p rf cv rb bq aq r0. unfold MPileUpRecord_init, parse_readBase.
    destruct (scan _ _ _ _ _ _) as [[cs n]| |] eqn:Hscan; cbn [bind]; [|done..].
    destruct (sanity_ok rb cv n) eqn:Hok; [|done].
    rewrite non_indel_totals. cbn [bind].
    pose proof Hscan as Hinv.
    apply scan_counts_invariant in Hinv as [Hnn Hle]; [|done|done].
    destruct (keys_positive_bounds base_keys cs Hnn) as (? & ? & ?).
    change (Z.of_nat (length base_keys)) with 10 in *.
    assert (Hstar : rb = "*" → keys_total base_keys cs = 0).
    { intros ->. cbn in Hscan. by injection Hscan as <- <-. }
    remember (keys_total base_keys cs) as nc eqn:Hnc.
    remember (keys_positive base_keys cs) as nt eqn:Hnt.
    intros [= <-]. cbn [nType nCov cov counts].
    split; [lia|]. split; [lia|]. split; [|split; [lia|done]].
    unfold sanity_ok in Hok. apply orb_prop in Hok as [Hok|Hok].
    - apply Z.eqb_eq in Hok. lia.
    - apply andb_prop in Hok as [Hs Hz].
      apply String.eqb_eq in Hs. apply Z.eqb_eq in Hz. specialize (Hstar Hs). lia. }
  unfold parseLine.
  repeat case_match; try done; intros Hp;
    repeat match type of Hp with
           | bind ?x _ = _ => destruct x; cbn [bind] in Hp; try done
           end;
    by apply Hinit in Hp.
Qed.

Lemma decoded_record_bounds_witness :
  0 ≤ nType example_record ∧ nType example_record ≤ nCov example_record
  ∧ nCov example_record ≤ cov example_record ∧ nType example_record ≤ 10
  ∧ ∀ k, 0 ≤ counter_get (counts example_record) k.
Proof.
  apply (decoded_record_bounds (pileup_row "6" "c" "3" ".-2GT,-2gt^I." "III")
           example_record).
  vm_compute. reflexivity.
Defined.

(** *** The depth table and the masking *)

Section depth_extras.

Lemma load_depth_app (l1 l2 : list string) (d : gmap Z Z) :
  load_depth (l1 ++ l2) d = bind (load_depth l1 d) (load_depth l2).
Proof.
  revert d. induction l1 as [|x l1 IH]; intros d; cbn [app load_depth]; [done|].
  destruct (depth_line x d); cbn [bind]; [apply IH|done..].
Qed.

Lemma depth_line_entry (line : string) (d : gmap Z Z) (e : Z * Z) :
  depth_entry line = Some e → depth_line line d = Ok (<[e.1 := e.2]> d).
Proof.
  unfold depth_entry, depth_line.
  repeat case_match; try done. intros [= <-]. reflexivity.
Qed.

End depth_extras.

(** X7. A depth file whose lines all hold three fields with an integer
    position and an integer depth loads as the table of its entries under
    0-based positions; of two lines for one position the later one wins. *)
Theorem load_depth_last_line_wins (lines : list string) (entries : list (Z * Z)) :
  mapM depth_entry lines = Some entries →
  load_depth lines ∅ = Ok (list_to_map (rev entries)).
Proof.
  revert entries. induction lines as [|line lines IH] using rev_ind; intros entries.
  - cbn. by intros [= <-].
  - rewrite mapM_Some. intros Hall.
    apply Forall2_app_inv_l in Hall as (es & e1 & Hes & He & ->).
    apply Forall2_cons_inv_l in He as (e & nil' & He & Hnil & ->).
    apply Forall2_nil_inv_l in Hnil as ->.
    rewrite load_depth_app, (IH es) by (by apply mapM_Some).
    cbn [bind load_depth]. rewrite (depth_line_entry line _ e He). cbn [bind].
    rewrite rev_app_distr. cbn [rev app list_to_map foldr]. by destruct e.
Qed.

Lemma load_depth_last_line_wins_witness :
  load_depth [depth_row "3" "10"; depth_row "4" "7"; depth_row "3" "12"] ∅
  = Ok (list_to_map (rev [(2, 10); (3, 7); (2, 12)])).
Proof.
  apply (load_depth_last_line_wins
           [depth_row "3" "10"; depth_row "4" "7"; depth_row "3" "12"]
           [(2, 10); (3, 7); (2, 12)]).
  vm_compute. reflexivity.
Defined.

(** X8. Once the lines before it have loaded, a line of the depth file that
    does not split into exactly three fields raises ValueError. *)
Theorem load_depth_malformed_line (before after : list string) (line : string)
    (d : gmap Z Z) :
  load_depth before ∅ = Ok d →
  length (split_ws (strip line)) ≠ 3%nat →
  load_depth (before ++ line :: after) ∅ = Raise (ValueError line).
Proof.
  intros Hd Hlen. rewrite load_depth_app, Hd. cbn [bind load_depth].
  unfold depth_line.
  destruct (split_ws (strip line)) as [|a [|b [|c [|? ?]]]]; cbn in Hlen; done.
Qed.

Lemma load_depth_malformed_line_witness :
  load_depth ([depth_row "3" "10"] ++ ("ref" +:+ tab +:+ "4" +:+ nl) :: []) ∅
  = Raise (ValueError ("ref" +:+ tab +:+ "4" +:+ nl)).
Proof.
  apply (load_depth_malformed_line [depth_row "3" "10"] []
           ("ref" +:+ tab +:+ "4" +:+ nl) {[2 := 10]}).
  - vm_compute. reflexivity.
  - vm_compute. discriminate.
Defined.

Section masking_extras.

Lemma initial_table_outside (refseq : string) (p : Z) :
  p < 0 ∨ Z.of_nat (String.length refseq) ≤ p → initial_table refseq !! p = None.
Proof.
  intros Hp. unfold initial_table.
  rewrite <- length_list_ascii_of_string in *.
  rewrite <- (length_fmap (λ c, String c EmptyString)) in *.
  rewrite list_to_map_zip_seqZ. apply lookup_map_seqZ_None. lia.
Qed.

End masking_extras.

(** X9. The masked table at every key [p]. Within the reference: N when [p]
    is at or after the last recorded depth position, before the first one,
    or has no depth or a depth below [min_coverage], and the reference base
    otherwise. Outside the reference: N at the keys that the two end loops
    reach (from the end of the reference up to the first recorded position,
    and from a negative last recorded position up to -1), nothing elsewhere. *)
Theorem mask_table_entries (refseq : string) (d : gmap Z Z)
    (min_coverage lo hi : Z) (t : gmap Z string) (p : Z) :
  mask_table refseq d min_coverage = Ok t →
  min_key d = Ok lo → max_key d = Ok hi →
  let n := Z.of_nat (String.length refseq) in
  t !! p =
    if bool_decide (0 ≤ p < n) then
      if is_masked d min_coverage lo hi p then Some "N"
      else (λ c, String c EmptyString) <$> String.get (Z.to_nat p) refseq
    else if bool_decide (n ≤ p < lo ∨ hi ≤ p < 0) then Some "N"
    else None.
Proof.
  intros Ht Hlo Hhi n.
  destruct (decide (0 ≤ p < n)) as [Hin|Hout].
  - rewrite bool_decide_eq_true_2 by done.
    destruct (mask_table_lookup refseq d min_coverage lo hi p Hlo Hhi Hin)
      as (t' & Ht' & Hlk).
    rewrite Ht in Ht'. injection Ht' as <-. exact Hlk.
  - rewrite bool_decide_eq_false_2 by done.
    unfold mask_table in Ht. rewrite Hlo, Hhi in Ht. cbn [bind] in Ht.
    injection Ht as <-. fold n.
    change (λ t pos0, if low_coverage d min_coverage pos0 then <[pos0:="N"]> t else t)
      with (mask_if (low_coverage d min_coverage)).
    destruct (decide (hi ≤ p < 0)) as [Hneg|Hneg].
    { rewrite bool_decide_eq_true_2 by (by right).
      apply mask_positions_hit, elem_of_seqZ. lia. }
    rewrite mask_positions_miss by (rewrite elem_of_seqZ; lia).
    destruct (decide (n ≤ p < lo)) as [Hlt|Hge].
    + rewrite bool_decide_eq_true_2 by (by left).
      apply mask_positions_hit, elem_of_seqZ. lia.
    + rewrite bool_decide_eq_false_2 by lia.
      rewrite mask_positions_miss by (rewrite elem_of_seqZ; lia).
      rewrite mask_if_miss by (left; rewrite elem_of_seqZ; lia).
      apply initial_table_outside. fold n. lia.
Qed.

Lemma mask_table_entries_witness :
  scenario_table !! 7 = Some "N" ∧ scenario_table !! 6 = Some "G".
Proof.
  split.
  - refine (mask_table_entries "ACGTACGTAC"
              (list_to_map [(2, 10); (3, 10); (4, 10); (5, 10); (6, 10); (7, 10)])
              4 2 7 scenario_table 7 _ _ _); vm_compute; reflexivity.
  - refine (mask_table_entries "ACGTACGTAC"
              (list_to_map [(2, 10); (3, 10); (4, 10); (5, 10); (6, 10); (7, 10)])
              4 2 7 scenario_table 6 _ _ _); vm_compute; reflexivity.
Defined.

(** X10. With an empty depth file, in pileup-derived mode, the run stops at
    [min(depth_per_pos)] with ValueError, having opened the reference and
    the depth file only. *)
Theorem empty_depth_file_fatal (fs : FileSystem)
    (ref_fasta mpileup depth_file vcf_input prefix newid : string)
    (min_coverage : Z) (min_alt_freq : float) (min_qual : Z)
    (vcf_type : option string) (refseq : string) :
  fasta_files fs !! ref_fasta = Some refseq →
  text_files fs !! depth_file = Some [] →
  run (genVCFcons fs ref_fasta mpileup depth_file vcf_input prefix newid
         min_coverage min_alt_freq min_qual false vcf_type)
  = ([OpenRead ref_fasta; OpenRead depth_file],
     Raise (ValueError "min() arg is an empty sequence")).
Proof.
  intros Hfa Hd. unfold genVCFcons, build_table. munfold.
  rewrite Hfa; cbn beta iota zeta. rewrite Hd; cbn beta iota zeta.
  reflexivity.
Qed.

Lemma empty_depth_file_fatal_witness :
  run (genVCFcons empty_depth_files "ref.fasta" "s.bam.mpileup" "s.bam.depth"
         "s.vcf" "s" "id" 4 0.5 100 false None)
  = ([OpenRead "ref.fasta"; OpenRead "s.bam.depth"],
     Raise (ValueError "min() arg is an empty sequence")).
Proof.
  apply (empty_depth_file_fatal empty_depth_files "ref.fasta" "s.bam.mpileup"
           "s.bam.depth" "s.vcf" "s" "id" 4 0.5 100 None "ACGT"); reflexivity.
Defined.

(** X11. On an empty call set the full consensus that is written is the
    reference with its masked positions replaced by N, whatever
    [min_coverage] is. *)
Theorem no_calls_consensus (fs : FileSystem)
    (ref_fasta mpileup depth_file vcf_input prefix newid : string)
    (min_coverage : Z) (min_alt_freq : float) (min_qual : Z)
    (use_vcf_info : bool) (vcf_type : option string)
    (refseq : string) (depth_lines : list string) (depth : gmap Z Z) (lo hi : Z) :
  fasta_files fs !! ref_fasta = Some refseq →
  pileup_loads fs mpileup use_vcf_info →
  text_files fs !! depth_file = Some depth_lines →
  load_depth depth_lines ∅ = Ok depth →
  min_key depth = Ok lo → max_key depth = Ok hi →
  vcf_files fs !! vcf_input = Some [] →
  Write (prefix +:+ ".vcfcons.fasta")
        (">" +:+ newid +:+ nl
           +:+ mask_reference depth min_coverage lo hi refseq +:+ nl)
    ∈ (run (genVCFcons fs ref_fasta mpileup depth_file vcf_input prefix newid
              min_coverage min_alt_freq min_qual use_vcf_info vcf_type)).1.
Proof.
  intros Hfa Hpl Hdl Hd Hlo Hhi Hv.
  assert (∃ t, mask_table refseq depth min_coverage = Ok t) as [t Ht].
  { unfold mask_table. rewrite Hlo, Hhi. cbn [bind]. eauto. }
  destruct (build_table_no_calls fs ref_fasta mpileup depth_file vcf_input prefix
              min_coverage min_alt_freq min_qual use_vcf_info vcf_type
              refseq depth_lines depth t Hfa Hpl Hdl Hd Ht Hv) as [tr Hbuild].
  unfold genVCFcons, run, bindM in *. rewrite Hbuild.
  assert (mask_reference depth min_coverage lo hi refseq
          = make_seq_from_list t 0 (Z.of_nat (String.length refseq))) as ->;
    [|apply write_outputs_consensus].
  unfold mask_reference. symmetry.
  rewrite <- length_list_ascii_of_string.
  rewrite <- (length_imap
    (λ i c, if is_masked depth min_coverage lo hi (Z.of_nat i) then "N"%char else c)).
  rewrite <- (Z.add_0_l (Z.of_nat (length _))).
  apply make_seq_chars. intros i c Hc. rewrite Z.add_0_l.
  rewrite list_lookup_imap in Hc.
  destruct (list_ascii_of_string refseq !! i) as [c0|] eqn:Hc0; [|done].
  cbn in Hc. injection Hc as <-.
  assert (Hi : 0 ≤ Z.of_nat i < Z.of_nat (String.length refseq)).
  { apply lookup_lt_Some in Hc0. rewrite length_list_ascii_of_string in Hc0. lia. }
  destruct (mask_table_lookup refseq depth min_coverage lo hi (Z.of_nat i) Hlo Hhi Hi)
    as (t' & Ht' & Hlk).
  rewrite Ht in Ht'. injection Ht' as <-. rewrite Hlk. unfold is_masked.
  destruct (bool_decide (hi ≤ Z.of_nat i ∨ Z.of_nat i < lo)
            || low_coverage depth min_coverage (Z.of_nat i)); [done|].
  by rewrite Nat2Z.id, get_list_ascii, Hc0.
Qed.

Lemma no_calls_consensus_witness :
  Write "s.vcfcons.fasta" (">id" +:+ nl +:+ "NNGTACGNNN" +:+ nl)
    ∈ (run (genVCFcons scenario_files "ref.fasta" "s.bam.mpileup" "s.bam.depth"
              "s.vcf" "s" "id" 4 0.5 100 false None)).1.
Proof.
  refine (no_calls_consensus scenario_files "ref.fasta" "s.bam.mpileup" "s.bam.depth"
           "s.vcf" "s" "id" 4 0.5 100 false None "ACGTACGTAC"
           (text_files scenario_files !!! "s.bam.depth")
           (list_to_map [(2, 10); (3, 10); (4, 10); (5, 10); (6, 10); (7, 10)]) 2 7
           _ _ _ _ _ _ _).
  - reflexivity.
  - intros [=].
  - reflexivity.
  - vm_compute. reflexivity.
  - vm_compute. reflexivity.
  - vm_compute. reflexivity.
  - reflexivity.
Defined.

(** *** The edits of an accepted call *)

Section edit_extras.

Implicit Types (t : gmap Z string) (k p : Z).

Lemma fold_insert_chars_lookup (base a : Z) (cs : list ascii) t k :
  fold_left (fun t '(cur, c) => <[base + cur := String c EmptyString]> t)
            (zip (seqZ a (Z.of_nat (length cs))) cs) t !! k
  = if bool_decide (base + a ≤ k < base + a + Z.of_nat (length cs))
    then (λ c, String c EmptyString) <$> cs !! Z.to_nat (k - base - a)
    else t !! k.
Proof.
  revert a t. induction cs as [|c cs IH]; intros a t.
  - cbn. rewrite bool_decide_eq_false_2 by lia. done.
  - rewrite seqZ_cons by (cbn [length]; lia).
    replace (Z.pred (Z.of_nat (length (c :: cs)))) with (Z.of_nat (length cs))
      by (cbn [length]; lia).
    cbn [zip zip_with fold_left]. rewrite IH.
    destruct (decide (k = base + a)) as [->|Hne].
    + rewrite bool_decide_eq_false_2 by lia.
      rewrite bool_decide_eq_true_2 by (cbn [length]; lia).
      rewrite lookup_insert_eq. by replace (base + a - base - a) with 0 by lia.
    + rewrite lookup_insert_ne by done.
      destruct (decide (base + Z.succ a ≤ k < base + Z.succ a + Z.of_nat (length cs))).
      * rewrite !bool_decide_eq_true_2 by (cbn [length]; lia).
        replace (Z.to_nat (k - base - a)) with (S (Z.to_nat (k - base - Z.succ a))) by lia.
        done.
      * rewrite !bool_decide_eq_false_2 by (cbn [length]; lia). done.
Qed.

Lemma delete_keys_present (keys : list Z) t :
  NoDup keys → (∀ k, k ∈ keys → is_Some (t !! k)) →
  ∃ t', delete_keys keys t = Ok t'
        ∧ (∀ k, t' !! k = if bool_decide (k ∈ keys) then None else t !! k)
        ∧ (size t' + length keys = size t)%nat.
Proof.
  intros Hnd. revert t. induction Hnd as [|k0 keys Hk0 Hnd IH]; intros t Hall.
  - exists t. split; [done|]. split; [|cbn; lia]. intros k.
    by rewrite bool_decide_eq_false_2 by apply not_elem_of_nil.
  - cbn [delete_keys]. destruct (Hall k0) as [v Hv]; [by left|]. rewrite Hv.
    destruct (IH (delete k0 t)) as (t' & -> & Hlk & Hsz).
    { intros k Hk. rewrite lookup_delete_ne by (intros ->; done).
      apply Hall. by right. }
    exists t'. split; [done|]. split.
    + intros k. rewrite Hlk. destruct (decide (k = k0)) as [->|Hne].
      * rewrite bool_decide_eq_false_2 by done.
        rewrite bool_decide_eq_true_2 by (by left). apply lookup_delete_eq.
      * rewrite lookup_delete_ne by done.
        destruct (decide (k ∈ keys)).
        -- rewrite !bool_decide_eq_true_2; [done|by right|done].
        -- rewrite !bool_decide_eq_false_2; [done| |done].
           by intros [?|?]%elem_of_cons.
    + rewrite map_size_delete_Some in Hsz by (by rewrite Hv).
      assert (size t ≠ 0%nat).
      { intros H0. apply map_size_empty_iff in H0. by rewrite H0 in Hv. }
      cbn [length]. lia.
Qed.

Lemma delete_keys_absent (before after : list Z) k t :
  NoDup (before ++ [k]) → (∀ k', k' ∈ before → is_Some (t !! k')) →
  t !! k = None →
  delete_keys (before ++ k :: after) t = Raise (KeyError k).
Proof.
  revert t. induction before as [|k0 before IH]; intros t Hnd Hall Hk.
  - cbn. by rewrite Hk.
  - cbn [app delete_keys]. destruct (Hall k0) as [v Hv]; [by left|]. rewrite Hv.
    cbn [app] in Hnd. apply NoDup_cons in Hnd as [Hk0 Hnd].
    apply IH; [done| |].
    + intros k' Hk'. rewrite lookup_delete_ne.
      * apply Hall. by right.
      * intros ->. apply Hk0. apply elem_of_app. by left.
    + rewrite lookup_delete_ne; [done|].
      intros ->. apply Hk0. apply elem_of_app. right. by left.
Qed.

Lemma delete_keys_lookup (keys : list Z) t t' k :
  delete_keys keys t = Ok t' →
  t' !! k = if bool_decide (k ∈ keys) then None else t !! k.
Proof.
  revert t. induction keys as [|k0 keys IH]; intros t; cbn [delete_keys].
  - intros [= <-]. by rewrite bool_decide_eq_false_2 by apply not_elem_of_nil.
  - destruct (t !! k0) as [v|] eqn:Hv; [|done]. intros Hdel.
    rewrite (IH _ Hdel). destruct (decide (k = k0)) as [->|Hne].
    + rewrite (bool_decide_eq_true_2 (k0 ∈ k0 :: keys)) by (by left).
      rewrite lookup_delete_eq. by case_bool_decide.
    + rewrite lookup_delete_ne by done.
      erewrite bool_decide_ext; [done|].
      split; [by right|]. by intros [?|?]%elem_of_cons.
Qed.

Lemma make_seq_absent t (a b : Z) :
  (∀ k, a ≤ k < b → t !! k = None) → make_seq_from_list t a b = "".
Proof.
  intros Habs. unfold make_seq_from_list.
  assert (Hin : ∀ k, k ∈ seqZ a (b - a) → t !! k = None).
  { intros k Hk. apply elem_of_seqZ in Hk. apply Habs. lia. }
  revert Hin. generalize (seqZ a (b - a)). intros l.
  induction l as [|x l IH]; intros Hin; [done|].
  cbn [fold_left]. rewrite (Hin x) by (by left). apply IH.
  intros k Hk. apply Hin. by right.
Qed.

End edit_extras.

(** X12. A deletion whose keys are all present removes exactly the keys
    from [pos] up to [pos + |delta|] (excluded) and shortens the table by
    [|delta|] entries. *)
Theorem apply_DEL_removes_block (pos delta : Z) (t : gmap Z string) :
  (∀ k, pos ≤ k < pos + Z.abs delta → is_Some (t !! k)) →
  ∃ t', apply_DEL pos delta t = Ok t'
        ∧ (∀ k, t' !! k = if bool_decide (pos ≤ k < pos + Z.abs delta)
                          then None else t !! k)
        ∧ Z.of_nat (size t') = Z.of_nat (size t) - Z.abs delta.
Proof.
  intros Hall. unfold apply_DEL.
  destruct (delete_keys_present (seqZ pos (Z.abs delta)) t) as (t' & Ht' & Hlk & Hsz).
  { apply NoDup_seqZ. }
  { intros k Hk. apply elem_of_seqZ in Hk. by apply Hall. }
  exists t'. split; [done|]. split.
  - intros k. rewrite Hlk. erewrite bool_decide_ext; [done|]. apply elem_of_seqZ.
  - rewrite length_seqZ in Hsz. lia.
Qed.

Lemma apply_DEL_removes_block_witness :
  ∃ t', apply_DEL 2 (-2) (initial_table "ACGTAC") = Ok t'
        ∧ (∀ k, t' !! k = if bool_decide (2 ≤ k < 2 + Z.abs (-2))
                          then None else initial_table "ACGTAC" !! k)
        ∧ Z.of_nat (size t')
          = Z.of_nat (size (initial_table "ACGTAC")) - Z.abs (-2).
Proof.
  apply (apply_DEL_removes_block 2 (-2) (initial_table "ACGTAC")).
  intros k Hk. assert (k = 2 ∨ k = 3) as [-> | ->] by lia; by eexists.
Defined.

(** X13. A deletion that meets a key which is no longer in the table raises
    KeyError at the first such key. *)
Theorem apply_DEL_missing_key (pos delta k : Z) (t : gmap Z string) :
  pos ≤ k < pos + Z.abs delta →
  (∀ k', pos ≤ k' < k → is_Some (t !! k')) →
  t !! k = None →
  apply_DEL pos delta t = Raise (KeyError k).
Proof.
  intros Hk Hall Hnone. unfold apply_DEL.
  replace (Z.abs delta) with ((k - pos) + (1 + (pos + Z.abs delta - k - 1))) by lia.
  rewrite seqZ_app by lia. rewrite (seqZ_cons (pos + (k - pos))) by lia.
  replace (pos + (k - pos)) with k by lia.
  apply delete_keys_absent; [| |done].
  - replace [k] with (seqZ (pos + (k - pos)) 1)
      by (by replace (pos + (k - pos)) with k by lia).
    rewrite <- seqZ_app by lia. apply NoDup_seqZ.
  - intros k' Hk'. apply elem_of_seqZ in Hk'. apply Hall. lia.
Qed.

Lemma apply_DEL_missing_key_witness :
  apply_DEL 1 (-2) trailing_table = Raise (KeyError 2).
Proof.
  apply (apply_DEL_missing_key 1 (-2) 2 trailing_table).
  - lia.
  - intros k Hk. assert (k = 1) as -> by lia. by eexists.
  - reflexivity.
Defined.

(** X14. After a deletion the sequence read back from the table is the one
    before the deleted block followed by the one after it. *)
Theorem deletion_shortens_consensus (pos delta n : Z) (t t' : gmap Z string) :
  apply_DEL pos delta t = Ok t' →
  0 ≤ pos → pos + Z.abs delta ≤ n →
  make_seq_from_list t' 0 n
  = make_seq_from_list t 0 pos +:+ make_seq_from_list t (pos + Z.abs delta) n.
Proof.
  intros Hdel Hpos Hend.
  assert (Hlk : ∀ k, t' !! k = if bool_decide (pos ≤ k < pos + Z.abs delta)
                              then None else t !! k).
  { intros k. rewrite (delete_keys_lookup _ _ _ k Hdel).
    erewrite bool_decide_ext; [done|]. apply elem_of_seqZ. }
  rewrite (make_seq_app t' 0 pos n) by lia.
  rewrite (make_seq_app t' pos (pos + Z.abs delta) n) by lia.
  rewrite (make_seq_absent t' pos (pos + Z.abs delta)).
  2: { intros k Hk. rewrite Hlk. by rewrite bool_decide_eq_true_2. }
  rewrite append_nil_l.
  rewrite (make_seq_ext t t' 0 pos).
  2: { intros k Hk. rewrite Hlk. by rewrite bool_decide_eq_false_2 by lia. }
  rewrite (make_seq_ext t t' (pos + Z.abs delta) n); [done|].
  intros k Hk. rewrite Hlk. by rewrite bool_decide_eq_false_2 by lia.
Qed.

Lemma deletion_shortens_consensus_witness :
  make_seq_from_list trailing_table 0 4
  = make_seq_from_list (initial_table "ACGT") 0 2
      +:+ make_seq_from_list (initial_table "ACGT") (2 + Z.abs (-1)) 4.
Proof.
  apply (deletion_shortens_consensus 2 (-1) 4 (initial_table "ACGT") trailing_table).
  - vm_compute. reflexivity.
  - lia.
  - lia.
Defined.

(** What a substitution leaves at a key. *)
Lemma apply_SUB_lookup (pos : Z) (alt : string) (t : gmap Z string) (k : Z) :
  apply_SUB pos alt t !! k
  = if bool_decide (pos - 1 ≤ k < pos - 1 + Z.of_nat (String.length alt))
    then (λ c, String c EmptyString) <$> String.get (Z.to_nat (k - (pos - 1))) alt
    else t !! k.
Proof.
  unfold apply_SUB. rewrite <- length_list_ascii_of_string.
  rewrite (fold_insert_chars_lookup (pos - 1) 0).
  rewrite Z.add_0_r, Z.sub_0_r. by rewrite get_list_ascii.
Qed.

(** X15. After a substitution the sequence read back from the table has the
    alternate allele from the 0-based position [pos - 1] on, over the
    length of the allele, and is unchanged on both sides. *)
Theorem substitution_in_consensus (pos n : Z) (alt : string) (t : gmap Z string) :
  1 ≤ pos → pos - 1 + Z.of_nat (String.length alt) ≤ n →
  make_seq_from_list (apply_SUB pos alt t) 0 n
  = make_seq_from_list t 0 (pos - 1) +:+ alt
      +:+ make_seq_from_list t (pos - 1 + Z.of_nat (String.length alt)) n.
Proof.
  intros Hpos Hend. set (len := Z.of_nat (String.length alt)) in *.
  rewrite (make_seq_app _ 0 (pos - 1) n) by lia.
  rewrite (make_seq_app _ (pos - 1) (pos - 1 + len) n) by lia.
  rewrite (make_seq_ext t _ 0 (pos - 1)).
  2: { intros k Hk. rewrite apply_SUB_lookup.
       by rewrite bool_decide_eq_false_2 by lia. }
  rewrite (make_seq_ext t _ (pos - 1 + len) n).
  2: { intros k Hk. rewrite apply_SUB_lookup.
       by rewrite bool_decide_eq_false_2 by (fold len; lia). }
  f_equal. f_equal.
  rewrite <- (string_of_list_ascii_of_string alt) at 2.
  unfold len. rewrite <- length_list_ascii_of_string.
  apply make_seq_chars. intros i c Hc.
  rewrite apply_SUB_lookup.
  apply lookup_lt_Some in Hc as Hlt. rewrite length_list_ascii_of_string in Hlt.
  rewrite bool_decide_eq_true_2 by lia.
  replace (Z.to_nat (pos - 1 + Z.of_nat i - (pos - 1))) with i by lia.
  by rewrite get_list_ascii, Hc.
Qed.

Lemma substitution_in_consensus_witness :
  make_seq_from_list (apply_SUB 2 "TT" (initial_table "ACGT")) 0 4
  = make_seq_from_list (initial_table "ACGT") 0 (2 - 1) +:+ "TT"
      +:+ make_seq_from_list (initial_table "ACGT")
            (2 - 1 + Z.of_nat (String.length "TT")) 4.
Proof.
  apply (substitution_in_consensus 2 4 "TT" (initial_table "ACGT")).
  - lia.
  - cbn. lia.
Defined.

(** X16. After an insertion the sequence read back from the table has the
    whole alternate allele in the place of the one entry at the 0-based
    position [pos - 1], and is unchanged on both sides. *)
Theorem insertion_in_consensus (pos n : Z) (alt : string) (t : gmap Z string) :
  1 ≤ pos ≤ n →
  make_seq_from_list (apply_INS pos alt t) 0 n
  = make_seq_from_list t 0 (pos - 1) +:+ alt +:+ make_seq_from_list t pos n.
Proof.
  intros Hpos. unfold apply_INS.
  rewrite (make_seq_split _ n (pos - 1) alt) by (lia || apply lookup_insert_eq).
  replace (pos - 1 + 1) with pos by lia.
  rewrite (make_seq_ext t _ 0 (pos - 1)).
  2: { intros k Hk. by rewrite lookup_insert_ne by lia. }
  rewrite (make_seq_ext t _ pos n); [done|].
  intros k Hk. by rewrite lookup_insert_ne by lia.
Qed.

Lemma insertion_in_consensus_witness :
  make_seq_from_list (apply_INS 2 "CTT" (initial_table "ACGT")) 0 4
  = make_seq_from_list (initial_table "ACGT") 0 (2 - 1) +:+ "CTT"
      +:+ make_seq_from_list (initial_table "ACGT") 2 4.
Proof.
  apply (insertion_in_consensus 2 4 "CTT" (initial_table "ACGT")). lia.
Defined.

(** *** The variant loop *)

(** X17. A call whose total coverage resolves to 0 is not ignored as a call
    of low coverage: the allele frequency is computed before the coverage
    test, and the division raises ZeroDivisionError. *)
Theorem zero_coverage_division_error (prefix : string) (min_coverage : Z)
    (min_alt_freq : float) (min_qual : Z) (use_vcf_info : bool)
    (vcf_type : option string) (info_per_pos : option (gmap Z MPileUpRecord))
    (v : VariantCall) (newseqlist : gmap Z string) (tr0 tr1 : list event)
    (_alt : string) (alts : list string) (alt_count : Z) :
  ALT v = _alt :: alts →
  resolve_support prefix use_vcf_info vcf_type info_per_pos v (REF v) _alt
    (variant_delta v _alt) (tr0 ++ multi_alt_warning prefix v)
  = (tr1, Ok (0, alt_count)) →
  Z.abs alt_count < float_limit →
  process_variant prefix min_coverage min_alt_freq min_qual use_vcf_info
                  vcf_type info_per_pos v newseqlist tr0
  = (tr1, Raise ZeroDivisionError).
Proof.
  intros Halt Hres Ha.
  unfold process_variant. rewrite Halt.
  unfold bindM at 1. unfold multi_alt_warning in Hres. rewrite Halt in Hres.
  assert (Hpre : (if (1 <? length (_alt :: alts))%nat
                  then emit (Print (WarnMultiAlt prefix)) else ret ()) tr0
                 = (tr0 ++ (if (1 <? length (_alt :: alts))%nat
                            then [Print (WarnMultiAlt prefix)] else []), Ok ())).
  { destruct (1 <? length (_alt :: alts))%nat; unfold emit, ret; [done|].
    by rewrite app_nil_r. }
  rewrite Hpre. cbn zeta. unfold bindM at 1.
  unfold variant_delta in Hres. rewrite Hres.
  unfold bindM at 1. unfold lift at 1.
  unfold alt_frequency, float_of_int. fold float_limit.
  destruct (Z.ltb_spec (Z.abs alt_count) float_limit); [|lia].
  reflexivity.
Qed.

Lemma zero_coverage_division_error_witness :
  process_variant "s" 4 0.5 100 true None None call_uncovered
                  (initial_table "ACGT") []
  = ([], Raise ZeroDivisionError).
Proof.
  apply (zero_coverage_division_error "s" 4 0.5 100 true None None call_uncovered
           (initial_table "ACGT") [] [] "T" [] 0).
  - reflexivity.
  - vm_compute. reflexivity.
  - vm_compute. reflexivity.
Defined.

Lemma process_variants_annotation_mode (prefix : string) (min_coverage : Z)
    (min_alt_freq : float) (min_qual : Z) (vcf_type : option string)
    (info info' : option (gmap Z MPileUpRecord)) (vs : list VariantCall)
    (t : gmap Z string) (tr : list event) :
  process_variants prefix min_coverage min_alt_freq min_qual true vcf_type info vs t tr
  = process_variants prefix min_coverage min_alt_freq min_qual true vcf_type info' vs t tr.
Proof.
  revert t tr. induction vs as [|v vs IH]; intros t tr; cbn [process_variants]; [done|].
  unfold bindM.
  change (process_variant prefix min_coverage min_alt_freq min_qual true vcf_type info v t)
    with (process_variant prefix min_coverage min_alt_freq min_qual true vcf_type info' v t).
  destruct (process_variant _ _ _ _ _ _ _ _ _ tr) as [tr' [t'| |]]; [apply IH|done..].
Qed.

(** X18. In annotation-derived mode the content of the pileup file has no
    effect on the run, as long as it decodes: replacing its lines by any
    other lines that decode leaves events and result unchanged. *)
Theorem annotation_mode_ignores_pileup (fs : FileSystem)
    (ref_fasta mpileup depth_file vcf_input prefix newid : string)
    (min_coverage : Z) (min_alt_freq : float) (min_qual : Z)
    (vcf_type : option string)
    (lines lines' : list string) (info info' : gmap Z MPileUpRecord) :
  mpileup ≠ depth_file →
  text_files fs !! mpileup = Some lines →
  load_pileup lines ∅ = Ok info →
  load_pileup lines' ∅ = Ok info' →
  run (genVCFcons (with_text_file fs mpileup lines') ref_fasta mpileup
         depth_file vcf_input prefix newid min_coverage min_alt_freq min_qual
         true vcf_type)
  = run (genVCFcons fs ref_fasta mpileup depth_file vcf_input prefix newid
           min_coverage min_alt_freq min_qual true vcf_type).
Proof.
  intros Hne Hl Hi Hi'. unfold genVCFcons, build_table. munfold.
  cbn [with_text_file fasta_files text_files vcf_files].
  rewrite lookup_insert_eq, (lookup_insert_ne _ mpileup depth_file) by done.
  rewrite Hl.
  destruct (fasta_files fs !! ref_fasta) as [refseq|]; [|done].
  cbn beta iota zeta. rewrite Hi, Hi'. cbn beta iota zeta.
  destruct (text_files fs !! depth_file) as [dl|]; [|done].
  cbn beta iota zeta.
  destruct (load_depth dl ∅) as [d| |]; [|done..].
  destruct (mask_table refseq d min_coverage) as [t| |]; [|done..].
  destruct (vcf_files fs !! vcf_input) as [calls|]; [|done].
  cbn beta iota zeta.
  by rewrite (process_variants_annotation_mode _ _ _ _ _ (Some info') (Some info)).
Qed.

Lemma annotation_mode_ignores_pileup_witness :
  run (genVCFcons (with_text_file four_call_files "s.bam.mpileup" [])
         "ref.fasta" "s.bam.mpileup" "s.bam.depth" "s.vcf" "s" "id" 4 0.5 100
         true None)
  = run (genVCFcons four_call_files "ref.fasta" "s.bam.mpileup" "s.bam.depth"
           "s.vcf" "s" "id" 4 0.5 100 true None).
Proof.
  apply (annotation_mode_ignores_pileup four_call_files "ref.fasta"
           "s.bam.mpileup" "s.bam.depth" "s.vcf" "s" "id" 4 0.5 100 None
           [pileup_row "6" "C" "3" ".-2GT,-2gt^I." "III"] []
           {[5 := example_record]} ∅).
  - discriminate.
  - reflexivity.
  - vm_compute. reflexivity.
  - reflexivity.
Defined.

Lemma load_pileup_index_inv (lines : list string) (info0 info : gmap Z MPileUpRecord) :
  load_pileup lines info0 = Ok info →
  ∀ p r, info !! p = Some r →
         info0 !! p = Some r ∨ (pos r = p ∧ ∃ line, line ∈ lines ∧ parseLine line = Ok r).
Proof.
  revert info0. induction lines as [|line lines IH]; intros info0; cbn [load_pileup].
  - intros [= <-] p r Hr. by left.
  - destruct (parseLine line) as [r0| |] eqn:Hp; cbn [bind]; [|done..].
    intros Hload p r Hr. destruct (IH _ Hload p r Hr) as [H0|(Hpos & l & Hl & Hpl)].
    + destruct (decide (pos r0 = p)) as [Heq|Hne].
      * rewrite <- Heq, lookup_insert_eq in H0. injection H0 as <-.
        right. split; [done|]. exists line. split; [by left|done].
      * rewrite lookup_insert_ne in H0 by done. by left.
    + right. split; [done|]. exists l. split; [by right|done].
Qed.

(** X19. Every record of the pileup table sits under its own 0-based
    position, and is the decoding of a line of the file. *)
Theorem pileup_table_indexed_by_position (lines : list string)
    (info : gmap Z MPileUpRecord) (p : Z) (r : MPileUpRecord) :
  load_pileup lines ∅ = Ok info →
  info !! p = Some r →
  pos r = p ∧ ∃ line, line ∈ lines ∧ parseLine line = Ok r.
Proof.
  intros Hload Hr.
  destruct (load_pileup_index_inv lines ∅ info Hload p r Hr) as [H0|H]; [|done].
  by rewrite lookup_empty in H0.
Qed.

Lemma pileup_table_indexed_by_position_witness :
  pos example_record = 5
  ∧ ∃ line, line ∈ [pileup_row "6" "C" "3" ".-2GT,-2gt^I." "III"]
            ∧ parseLine line = Ok example_record.
Proof.
  apply (pileup_table_indexed_by_position
           [pileup_row "6" "C" "3" ".-2GT,-2gt^I." "III"]
           {[5 := example_record]} 5 example_record).
  - vm_compute. reflexivity.
  - reflexivity.
Defined.

(** *** The fragments *)

Section fragment_extras.

Implicit Types (t : gmap Z string) (i k : Z).

Lemma absent_or_not_N_spec t k :
  absent_or_not_N t k = true ↔ t !! k ≠ Some "N".
Proof.
  unfold absent_or_not_N. destruct (t !! k) as [v|]; [|done].
  destruct (String.eqb_spec v "N") as [->|Hne]; cbn; [done|].
  split; [|done]. intros _ [= ?]. done.
Qed.

Lemma absent_or_N_spec t k : absent_or_N t k = false ↔ called t k.
Proof.
  unfold absent_or_N, called. destruct (t !! k) as [v|].
  - destruct (String.eqb_spec v "N") as [->|Hne].
    + split; [done|]. by intros (? & [= <-] & ?).
    + split; [eauto|done].
  - split; [done|]. by intros (? & ? & ?).
Qed.

Lemma not_called_N t k : t !! k = Some "N" → ¬ called t k.
Proof. intros HN (v & Hv & Hne). rewrite HN in Hv. by injection Hv as <-. Qed.

Lemma fragment_spans_lower t lo lo' spans :
  lo' ≤ lo → (∀ k, lo' ≤ k < lo → ¬ called t k) →
  fragment_spans t lo spans → fragment_spans t lo' spans.
Proof.
  intros Hle Hgap. destruct spans as [|[a b] rest]; cbn [fragment_spans].
  - intros Hrest k Hk. destruct (Z.lt_ge_cases k lo); [apply Hgap|apply Hrest]; lia.
  - intros (? & ? & ? & Hpre & ?). split; [lia|]. split; [lia|]. split; [lia|].
    split; [|done]. intros k Hk.
    destruct (Z.lt_ge_cases k lo); [apply Hgap|apply Hpre]; lia.
Qed.

Lemma skip_leading_N_stop fuel t i i' :
  skip_leading_N fuel t i = Ok i' →
  i ≤ i' ∧ called t i' ∧ ∀ k, i ≤ k < i' → t !! k = Some "N".
Proof.
  revert i. induction fuel as [|fuel IH]; intros i; cbn [skip_leading_N].
  all: destruct (t !! i) as [v|] eqn:Hv; [|done].
  all: destruct (String.eqb_spec v "N") as [->|Hne].
  - done.
  - intros [= <-]. split; [lia|]. split; [by exists v|]. intros; lia.
  - intros Hs. apply IH in Hs as (? & ? & Hk). split; [lia|]. split; [done|].
    intros k ?. destruct (decide (k = i)) as [->|]; [done|]. apply Hk. lia.
  - intros [= <-]. split; [lia|]. split; [by exists v|]. intros; lia.
Qed.

Lemma skip_leading_N_run fuel t i i' :
  i ≤ i' → (Z.to_nat (i' - i) ≤ fuel)%nat →
  (∀ k, i ≤ k < i' → t !! k = Some "N") → called t i' →
  skip_leading_N fuel t i = Ok i'.
Proof.
  revert i. induction fuel as [|fuel IH]; intros i Hle Hf HN (v & Hv & Hne);
    cbn [skip_leading_N].
  - assert (i = i') as -> by lia. rewrite Hv.
    by destruct (String.eqb_spec v "N").
  - destruct (decide (i = i')) as [->|Hlt].
    + rewrite Hv. by destruct (String.eqb_spec v "N").
    + rewrite HN by lia. cbn. apply IH; [lia|lia| |by exists v].
      intros k ?. apply HN. lia.
Qed.

Lemma advance_j_stop fuel t (j j' : Z) :
  advance_j fuel t j = Ok j' →
  j ≤ j' ∧ (∀ k, j ≤ k < j' → t !! k ≠ Some "N")
  ∧ (Z.of_nat (size t) ≤ j' ∨ t !! j' = Some "N").
Proof.
  revert j. induction fuel as [|fuel IH]; intros j; cbn [advance_j].
  - destruct (Z.ltb_spec j (Z.of_nat (size t))); cbn [andb].
    + destruct (absent_or_not_N t j) eqn:Hc; [done|].
      intros [= <-]. split; [lia|]. split; [intros; lia|]. right.
      destruct (t !! j) as [v|] eqn:Hv; unfold absent_or_not_N in Hc;
        rewrite Hv in Hc; [|done].
      destruct (String.eqb_spec v "N") as [Heq|]; [by rewrite Heq|done].
    + intros [= <-]. split; [lia|]. split; [intros; lia|]. by left.
  - destruct (Z.ltb_spec j (Z.of_nat (size t))); cbn [andb].
    + destruct (absent_or_not_N t j) eqn:Hc.
      * intros Hs. apply IH in Hs as (? & Hk & ?). split; [lia|]. split; [|done].
        intros k ?. destruct (decide (k = j)) as [->|]; [|apply Hk; lia].
        by apply absent_or_not_N_spec.
      * intros [= <-]. split; [lia|]. split; [intros; lia|]. right.
        destruct (t !! j) as [v|] eqn:Hv; unfold absent_or_not_N in Hc;
          rewrite Hv in Hc; [|done].
        destruct (String.eqb_spec v "N") as [Heq|]; [by rewrite Heq|done].
    + intros [= <-]. split; [lia|]. split; [intros; lia|]. by left.
Qed.

Lemma advance_j_run fuel t (j : Z) :
  j ≤ Z.of_nat (size t) →
  (Z.of_nat (size t) - j ≤ Z.of_nat fuel) →
  (∀ k, j ≤ k < Z.of_nat (size t) → t !! k ≠ Some "N") →
  advance_j fuel t j = Ok (Z.of_nat (size t)).
Proof.
  revert j. induction fuel as [|fuel IH]; intros j Hle Hf HN; cbn [advance_j].
  - destruct (Z.ltb_spec j (Z.of_nat (size t))); [lia|]. cbn. f_equal. lia.
  - destruct (Z.ltb_spec j (Z.of_nat (size t))); cbn [andb].
    + rewrite (proj2 (absent_or_not_N_spec t j)) by (apply HN; lia).
      apply IH; [lia|lia|]. intros k ?. apply HN. lia.
    + f_equal. lia.
Qed.

Lemma advance_i_stop fuel t i i' :
  advance_i fuel t i = Ok i' →
  i ≤ i' ∧ (∀ k, i ≤ k < i' → ¬ called t k)
  ∧ (i' < Z.of_nat (size t) - 1 → called t i').
Proof.
  revert i. induction fuel as [|fuel IH]; intros i; cbn [advance_i].
  - destruct (Z.ltb_spec i (Z.of_nat (size t) - 1)); cbn [andb].
    + destruct (absent_or_N t i) eqn:Hc; [done|].
      intros [= <-]. split; [lia|]. split; [intros; lia|].
      intros _. by apply absent_or_N_spec.
    + intros [= <-]. split; [lia|]. split; intros; lia.
  - destruct (Z.ltb_spec i (Z.of_nat (size t) - 1)); cbn [andb].
    + destruct (absent_or_N t i) eqn:Hc.
      * intros Hs. apply IH in Hs as (? & Hk & ?). split; [lia|]. split; [|done].
        intros k ?. destruct (decide (k = i)) as [->|]; [|apply Hk; lia].
        intros Hcl%absent_or_N_spec. congruence.
      * intros [= <-]. split; [lia|]. split; [intros; lia|].
        intros _. by apply absent_or_N_spec.
    + intros [= <-]. split; [lia|]. split; intros; lia.
Qed.

Lemma skip_leading_N_raise fuel t i e :
  skip_leading_N fuel t i = Raise e →
  ∃ k, e = KeyError k ∧ i ≤ k ∧ t !! k = None ∧ ∀ k', i ≤ k' < k → t !! k' = Some "N".
Proof.
  revert i. induction fuel as [|fuel IH]; intros i; cbn [skip_leading_N].
  all: destruct (t !! i) as [v|] eqn:Hv.
  all: try (intros [= <-]; exists i; split; [done|]; split; [lia|];
            split; [done|intros; lia]).
  all: destruct (String.eqb_spec v "N") as [Heq|]; [|done].
  - done.
  - intros Hs. apply IH in Hs as (k & -> & ? & ? & Hk). exists k.
    split; [done|]. split; [lia|]. split; [done|]. intros k' ?.
    destruct (decide (k' = i)) as [->|]; [by rewrite Hv, Heq|apply Hk; lia].
Qed.

Lemma frag_loop_spans fuel output2 newid t i (j : option Z) tr :
  0 ≤ i → (Z.of_nat (size t) - 1 - i ≤ Z.of_nat fuel) →
  (i < Z.of_nat (size t) - 1 → called t i) →
  ∃ spans i' j',
    frag_loop fuel output2 newid t i j tr
    = (tr ++ fragment_writes output2 newid t spans, Ok (i', j'))
    ∧ fragment_spans t i spans
    ∧ (spans = [] ∧ j' = j ∧ i' = i ∧ Z.of_nat (size t) - 1 ≤ i
       ∨ spans ≠ [] ∧ ∃ b, j' = Some b ∧ b < i').
Proof.
  revert i j tr. induction fuel as [|fuel IH]; intros i j tr Hi Hf Hc; cbn [frag_loop].
  - destruct (Z.ltb_spec i (Z.of_nat (size t) - 1)); [lia|].
    exists [], i, j. unfold ret. cbn [fragment_writes fmap list_fmap fragment_spans].
    rewrite app_nil_r. split; [done|]. split; [intros; lia|]. left. auto.
  - destruct (Z.ltb_spec i (Z.of_nat (size t) - 1)) as [Hlt|Hge].
    + destruct (advance_j_spec (size t) t (i + 1)) as (j1 & Hj & Hj1 & Hj2); [lia|].
      destruct (advance_i_spec (size t) t (j1 + 1)) as (i1 & Hi1 & Hi2); [lia|].
      pose proof (advance_j_stop _ _ _ _ Hj) as (_ & HjN & Hjend).
      pose proof (advance_i_stop _ _ _ _ Hi1) as (_ & Higap & Hi1c).
      unfold bindM, lift, emit. rewrite Hj, Hi1.
      destruct (IH i1 (Some j1) (tr ++ [Write output2 (frag_record newid t i j1)]))
        as (spans & i' & j' & -> & Hsp & Hj'); [lia|lia|done|].
      exists ((i, j1) :: spans), i', j'. split; [|split].
      * cbn. by rewrite <- app_assoc.
      * cbn [fragment_spans]. split; [lia|]. split; [lia|]. split; [lia|].
        split; [intros; lia|]. split; [by apply Hc|]. split; [|split].
        -- intros k Hk. destruct (decide (k = i)) as [->|].
           ++ destruct (Hc Hlt) as (v & Hv & Hne). rewrite Hv. by intros [= ->].
           ++ apply HjN. lia.
        -- destruct Hjend; [left; lia|by right].
        -- eapply fragment_spans_lower; [| |exact Hsp]; [lia|done].
      * right. split; [done|].
        destruct Hj' as [(-> & -> & -> & ?)|(_ & b & -> & ?)]; [|by eauto].
        exists j1. split; [done|]. lia.
    + exists [], i, j. unfold ret. cbn [fragment_writes fmap list_fmap fragment_spans].
      rewrite app_nil_r. split; [done|]. split; [intros; lia|]. left. auto.
Qed.

Lemma advance_i_done fuel t i :
  Z.of_nat (size t) - 1 ≤ i → advance_i fuel t i = Ok i.
Proof.
  intros Hi. destruct fuel; cbn [advance_i];
    by destruct (Z.ltb_spec i (Z.of_nat (size t) - 1)); [lia|].
Qed.

Lemma frag_loop_done fuel output2 newid t i (j : option Z) tr :
  Z.of_nat (size t) - 1 ≤ i →
  frag_loop fuel output2 newid t i j tr = (tr, Ok (i, j)).
Proof.
  intros Hi. destruct fuel; cbn [frag_loop];
    by destruct (Z.ltb_spec i (Z.of_nat (size t) - 1)); [lia|].
Qed.

End fragment_extras.

(** X20. The fragment file in full, whatever the table. Either the run
    ends well and has written at least one fragment, and the fragments are
    those of [fragment_spans]: each starts at a called entry, holds no N,
    ends at an N or at the number of entries, no called entry below the
    last index lies outside them, and the write after the loop never fires.
    Or nothing is written and the file is left open: with the error of the
    unbound [j] when the only called entry is the last one after a run of
    N, or with KeyError at the first absent key after a run of N. *)
Theorem fragment_file_spans (output2 newid : string) (t : gmap Z string)
    (tr : list event) :
  ∃ spans closing r,
    write_fragments output2 newid t tr
    = (tr ++ OpenWrite output2 :: fragment_writes output2 newid t spans ++ closing, r)
    ∧ (r = Ok () ∧ closing = [Close output2] ∧ spans ≠ [] ∧ fragment_spans t 0 spans
       ∨ closing = [] ∧ spans = [] ∧
         (r = Raise (UnboundLocalError "j")
            ∧ called t (Z.of_nat (size t) - 1)
            ∧ (∀ k, 0 ≤ k < Z.of_nat (size t) - 1 → t !! k = Some "N")
          ∨ ∃ k, r = Raise (KeyError k) ∧ 0 ≤ k ∧ t !! k = None
                 ∧ ∀ k', 0 ≤ k' < k → t !! k' = Some "N")).
Proof.
  unfold write_fragments, bindM, emit, lift.
  pose proof (skip_leading_N_fuel (size t) t 0) as Hfuel.
  destruct (skip_leading_N (size t) t 0) as [i0|e|] eqn:Hskip.
  - apply skip_leading_N_stop in Hskip as (Hi0 & Hcall & HN).
    destruct (frag_loop_spans (size t) output2 newid t i0 None (tr ++ [OpenWrite output2]))
      as (spans & i' & j' & -> & Hsp & Hj'); [lia|lia|done|].
    destruct Hj' as [(-> & -> & -> & Hlast)|(Hne & b & -> & Hb)].
    + exists [], [], (Raise (UnboundLocalError "j")). unfold raise. cbn.
      rewrite app_nil_r. split; [done|]. right.
      split; [done|]. split; [done|]. left. split; [done|].
      assert (i0 + 1 ≤ Z.of_nat (size t)).
      { apply prefix_present_size; [lia|]. intros k Hk.
        destruct (decide (k = i0)) as [->|].
        - destruct Hcall as (v & -> & _). eauto.
        - rewrite HN by lia. eauto. }
      assert (i0 = Z.of_nat (size t) - 1) as -> by lia. done.
    + exists spans, [Close output2], (Ok ()).
      destruct (Z.ltb_spec i' b); [lia|]. unfold ret. cbn.
      rewrite <- !app_assoc. cbn. split; [done|]. left.
      split; [done|]. split; [done|]. split; [done|].
      eapply fragment_spans_lower; [| |exact Hsp]; [lia|].
      intros k Hk. apply not_called_N, HN. lia.
  - apply skip_leading_N_raise in Hskip as (k & -> & ? & ? & ?).
    exists [], [], (Raise (KeyError k)). cbn.
    split; [done|]. right. split; [done|]. split; [done|]. right. eauto 10.
  - destruct Hfuel; [lia|intros; lia|lia|done].
Qed.

(** X21. A table that holds no N at all, with an entry at key 0 and at
    least two entries, gives exactly one fragment: the keys from 0 up to the
    number of entries. The write after the loop does not fire. *)
Theorem unmasked_table_single_fragment (output2 newid : string)
    (t : gmap Z string) (tr : list event) :
  (2 ≤ size t)%nat →
  is_Some (t !! 0) →
  map_Forall (λ _ v, v ≠ "N") t →
  write_fragments output2 newid t tr
  = (tr ++ [OpenWrite output2;
            Write output2 (frag_record newid t 0 (Z.of_nat (size t)));
            Close output2], Ok ()).
Proof.
  intros Hsize [v0 Hv0] HnoN.
  assert (HN : ∀ k, t !! k ≠ Some "N").
  { intros k Hk. by apply HnoN in Hk. }
  unfold write_fragments, bindM, emit, lift.
  rewrite (skip_leading_N_run (size t) t 0 0); [|lia|lia|intros; lia|].
  2:{ exists v0. split; [done|]. intros ->. by apply (HN 0). }
  destruct (size t) as [|n] eqn:Hn; [lia|]. cbn [frag_loop]. rewrite <- Hn.
  destruct (Z.ltb_spec 0 (Z.of_nat (size t) - 1)); [|lia].
  unfold bindM, emit, lift.
  rewrite (advance_j_run (size t) t (0 + 1)); [|lia|lia|by intros].
  rewrite advance_i_done by lia.
  rewrite frag_loop_done by lia.
  destruct (Z.ltb_spec (Z.of_nat (size t) + 1) (Z.of_nat (size t))); [lia|].
  unfold ret. cbn. by rewrite <- !app_assoc.
Qed.

(** X22. When the first entry that is not N is the last one of the table,
    the loop body never runs, [j] is never bound and the test after the
    loop raises: the fragment file is left open and empty. *)
Theorem lone_last_base_unbound (output2 newid : string) (t : gmap Z string)
    (tr : list event) (i0 : Z) :
  0 ≤ i0 →
  (∀ k, 0 ≤ k < i0 → t !! k = Some "N") →
  called t i0 →
  Z.of_nat (size t) - 1 ≤ i0 →
  write_fragments output2 newid t tr
  = (tr ++ [OpenWrite output2], Raise (UnboundLocalError "j")).
Proof.
  intros Hi0 HN Hcall Hlast.
  assert (i0 + 1 ≤ Z.of_nat (size t)).
  { apply prefix_present_size; [lia|]. intros k Hk.
    destruct (decide (k = i0)) as [->|].
    - destruct Hcall as (v & -> & _). eauto.
    - rewrite HN by lia. eauto. }
  unfold write_fragments, bindM, emit, lift.
  rewrite (skip_leading_N_run (size t) t 0 i0); [|lia|lia|intros; apply HN; lia|done].
  by rewrite frag_loop_done by lia.
Qed.

Lemma lone_last_base_unbound_witness :
  write_fragments "s.frag.fasta" "s" lone_table []
  = ([OpenWrite "s.frag.fasta"], Raise (UnboundLocalError "j")).
Proof.
  apply (lone_last_base_unbound "s.frag.fasta" "s" lone_table [] 2).
  - lia.
  - intros k Hk. assert (k = 0 ∨ k = 1) as [-> | ->] by lia; reflexivity.
  - exists "G". split; [reflexivity|discriminate].
  - vm_compute. discriminate.
Defined.

Lemma unmasked_table_single_fragment_witness :
  write_fragments "s.frag.fasta" "s" trailing_table []
  = ([OpenWrite "s.frag.fasta";
      Write "s.frag.fasta" (frag_record "s" trailing_table 0 3);
      Close "s.frag.fasta"], Ok ()).
Proof.
  apply (unmasked_table_single_fragment "s.frag.fasta" "s" trailing_table []).
  - vm_compute. lia.
  - by eexists.
  - refine (bool_decide_unpack _ _). vm_compute. exact I.
Defined.

(** *** The command line and the renaming file *)

Section rename_extras.

Lemma split_on_nonempty (sep : ascii) (s : string) : split_on sep s ≠ [].
Proof.
  destruct s as [|c s]; cbn [split_on]; [done|].
  destruct (Ascii.eqb c sep); [done|]. by destruct (split_on sep s).
Qed.

Lemma split_on_free (sep : ascii) (s : string) :
  free_of sep s = true → split_on sep s = [s].
Proof.
  unfold free_of. induction s as [|c s IH]; cbn [string_forall split_on]; [done|].
  intros [Hc Hs]%andb_prop. apply negb_true_iff in Hc. rewrite Hc.
  by rewrite IH.
Qed.

Lemma split_on_app (sep : ascii) (a b : string) :
  split_on sep (a +:+ String sep b) = split_on sep a ++ split_on sep b.
Proof.
  induction a as [|c a IH].
  - rewrite append_nil_l. cbn [split_on]. by rewrite Ascii.eqb_refl.
  - rewrite append_cons. cbn [split_on]. rewrite IH.
    destruct (Ascii.eqb c sep); [done|].
    pose proof (split_on_nonempty sep a).
    by destruct (split_on sep a).
Qed.

Lemma rename_loop_app (prefix : string) (l1 l2 : list string) (newid : option string) :
  rename_loop prefix (l1 ++ l2) newid
  = bind (rename_loop prefix l1 newid) (rename_loop prefix l2).
Proof.
  revert newid. induction l1 as [|x l1 IH]; intros newid; cbn [app rename_loop]; [done|].
  destruct (rename_key x); cbn [bind]; [apply IH|done..].
Qed.

Lemma rename_loop_defined (prefix : string) (lines : list string) (newid : option string) :
  Forall (λ l, ∃ k, rename_key l = Ok k) lines →
  ∃ r, rename_loop prefix lines newid = Ok r.
Proof.
  intros Hall. revert newid. induction Hall as [|x l [k Hk] _ IH]; intros newid;
    cbn [rename_loop]; [eauto|]. rewrite Hk. cbn [bind]. apply IH.
Qed.

Lemma rename_loop_no_match (prefix : string) (lines : list string) (newid : option string) :
  Forall (λ l, ∃ k, rename_key l = Ok k ∧ k ≠ prefix) lines →
  rename_loop prefix lines newid = Ok newid.
Proof.
  intros Hall. revert newid. induction Hall as [|x l (k & Hk & Hne) _ IH]; intros newid;
    cbn [rename_loop]; [done|]. rewrite Hk. cbn [bind].
  destruct (String.eqb_spec k prefix); [done|]. apply IH.
Qed.

Lemma require_file_exists (fs : FileSystem) (path : string) (tr : list event) :
  path_exists fs path = true → require_file fs path tr = (tr, Ok ()).
Proof. unfold require_file. by intros ->. Qed.

Lemma require_file_missing (fs : FileSystem) (path : string) (tr : list event) :
  path_exists fs path = false →
  require_file fs path tr = (tr ++ [Print (ErrCannotFind path)], Raise (SystemExit (-1))).
Proof. unfold require_file. by intros ->. Qed.

End rename_extras.

(** X23. The sample name that the renaming loop reads off a line: for a
    stripped line [pre/q-key/last], where the last two components hold no
    slash and [key] no hyphen, it is [key]. *)
Theorem rename_key_of_path (line pre q key last : string) :
  strip line = pre +:+ "/" +:+ (q +:+ "-" +:+ key) +:+ "/" +:+ last →
  free_of "/" (q +:+ "-" +:+ key) = true →
  free_of "/" last = true →
  free_of "-" key = true →
  rename_key line = Ok key.
Proof.
  intros Hline Hpart Hlast Hkey. unfold rename_key. rewrite Hline.
  rewrite !append_cons, !append_nil_l.
  rewrite split_on_app, split_on_app.
  rewrite (split_on_free "/" last), (split_on_free "/" (q +:+ String "-" key)).
  2:{ by rewrite append_cons, append_nil_l in Hpart. }
  2:{ done. }
  rewrite !rev_app_distr. cbn [rev app].
  rewrite split_on_app, (split_on_free "-" key) by done.
  by rewrite last_last.
Qed.

Lemma rename_key_of_path_witness :
  rename_key ("hCoV-19/USA/IA-CDC-LC0005111/2021" +:+ nl) = Ok "LC0005111".
Proof.
  apply (rename_key_of_path _ "hCoV-19/USA" "IA-CDC" "LC0005111" "2021");
    reflexivity.
Defined.

(** X24. Of several lines of the renaming file that name the sample, the
    last one gives the sequence id. *)
Theorem rename_last_match_wins (prefix line : string) (before after : list string)
    (newid : option string) :
  Forall (λ l, ∃ k, rename_key l = Ok k) before →
  rename_key line = Ok prefix →
  Forall (λ l, ∃ k, rename_key l = Ok k ∧ k ≠ prefix) after →
  rename_loop prefix (before ++ line :: after) newid = Ok (Some (strip line)).
Proof.
  intros Hb Hl Ha. rewrite rename_loop_app.
  destruct (rename_loop_defined prefix before newid Hb) as [r ->]. cbn [bind rename_loop].
  rewrite Hl. cbn [bind]. rewrite String.eqb_refl.
  by apply rename_loop_no_match.
Qed.

(** X25. [__main__] stops at the first derived input that does not exist:
    it prints the message for that path and exits with status -1, and opens
    nothing. *)
Theorem main_missing_input (fs : FileSystem) (args : Args) (path : string) :
  frequency_accepted args →
  find (λ p, negb (path_exists fs p)) (derived_inputs args) = Some path →
  run (main fs args) = ([Print (ErrCannotFind path)], Raise (SystemExit (-1))).
Proof.
  unfold frequency_accepted, derived_inputs, main, run. intros -> Hfind.
  cbn [find] in Hfind. unfold bindM.
  destruct (path_exists fs (args_prefix args +:+ ".bam.mpileup")) eqn:H1; cbn [negb] in Hfind.
  2:{ injection Hfind as <-. by rewrite require_file_missing. }
  rewrite require_file_exists by done.
  destruct (path_exists fs (args_prefix args +:+ ".bam.depth")) eqn:H2; cbn [negb] in Hfind.
  2:{ injection Hfind as <-. by rewrite require_file_missing. }
  rewrite require_file_exists by done.
  destruct (path_exists fs (args_prefix args +:+ ".vcf")) eqn:H3; cbn [negb] in Hfind; [done|].
  injection Hfind as <-. by rewrite require_file_missing.
Qed.

(** X26. With the checks passed and a renaming file whose lines all name
    other samples, the run is that of [genVCFcons] with the sequence id made
    of the prefix followed by [_VCFconsensus]. *)
Theorem main_default_id (fs : FileSystem) (args : Args) (path : string)
    (lines : list string) :
  frequency_accepted args →
  Forall (λ p, path_exists fs p = true) (derived_inputs args) →
  args_seq_rename_filename args = Some path →
  text_files fs !! path = Some lines →
  Forall (λ l, ∃ k, rename_key l = Ok k ∧ k ≠ args_prefix args) lines →
  run (main fs args)
  = main_call fs args (args_prefix args +:+ "_VCFconsensus") [OpenRead path].
Proof.
  unfold frequency_accepted, derived_inputs, main, run, main_call.
  intros -> Hex Hpath Hlines Hnone.
  apply Forall_cons in Hex as [H1 Hex]. apply Forall_cons in Hex as [H2 Hex].
  apply Forall_cons in Hex as [H3 _].
  unfold bindM at 1. rewrite require_file_exists by done.
  unfold bindM at 1. rewrite require_file_exists by done.
  unfold bindM at 1. rewrite require_file_exists by done.
  unfold bindM at 1. rewrite Hpath.
  unfold bindM, open_read, lift, emit, ret. rewrite Hlines.
  unfold bindM. cbn beta iota. by rewrite rename_loop_no_match.
Qed.

(** X27. A line of the renaming file that holds no slash, a blank line for
    one, ends the run with IndexError before [genVCFcons] starts: nothing
    but the renaming file is opened. *)
Theorem main_rename_bad_line (fs : FileSystem) (args : Args) (path line : string)
    (before after : list string) :
  frequency_accepted args →
  Forall (λ p, path_exists fs p = true) (derived_inputs args) →
  args_seq_rename_filename args = Some path →
  text_files fs !! path = Some (before ++ line :: after) →
  Forall (λ l, ∃ k, rename_key l = Ok k) before →
  free_of "/" (strip line) = true →
  run (main fs args) = ([OpenRead path], Raise IndexError).
Proof.
  unfold frequency_accepted, derived_inputs, main, run.
  intros -> Hex Hpath Hlines Hb Hfree.
  apply Forall_cons in Hex as [H1 Hex]. apply Forall_cons in Hex as [H2 Hex].
  apply Forall_cons in Hex as [H3 _].
  unfold bindM at 1. rewrite require_file_exists by done.
  unfold bindM at 1. rewrite require_file_exists by done.
  unfold bindM at 1. rewrite require_file_exists by done.
  unfold bindM at 1. rewrite Hpath.
  unfold bindM, open_read, lift, emit, ret. rewrite Hlines.
  unfold bindM. cbn beta iota. rewrite rename_loop_app.
  destruct (rename_loop_defined (args_prefix args) before None Hb) as [r ->].
  cbn [bind rename_loop]. unfold rename_key. by rewrite split_on_free.
Qed.

Lemma rename_last_match_wins_witness :
  rename_loop "s" ["x/USA/IA-s/1"; "y/USA/IA-s/2"; "z/USA/IA-t/3"] None
  = Ok (Some "y/USA/IA-s/2").
Proof.
  apply (rename_last_match_wins "s" "y/USA/IA-s/2" ["x/USA/IA-s/1"] ["z/USA/IA-t/3"] None).
  - repeat constructor. by eexists.
  - reflexivity.
  - repeat constructor. eexists. split; [reflexivity|discriminate].
Defined.

Lemma main_missing_input_witness :
  run (main covered_files (sample_args None))
  = ([Print (ErrCannotFind "s.bam.mpileup")], Raise (SystemExit (-1))).
Proof.
  apply (main_missing_input covered_files (sample_args None) "s.bam.mpileup");
    reflexivity.
Defined.

Lemma main_default_id_witness :
  run (main (rename_files ["hCoV-19/USA/IA-CDC-LC0005111/2021" +:+ nl])
            (sample_args (Some "names.txt")))
  = main_call (rename_files ["hCoV-19/USA/IA-CDC-LC0005111/2021" +:+ nl])
              (sample_args (Some "names.txt")) "s_VCFconsensus"
              [OpenRead "names.txt"].
Proof.
  apply (main_default_id (rename_files ["hCoV-19/USA/IA-CDC-LC0005111/2021" +:+ nl])
           (sample_args (Some "names.txt")) "names.txt"
           ["hCoV-19/USA/IA-CDC-LC0005111/2021" +:+ nl]).
  - reflexivity.
  - repeat constructor.
  - reflexivity.
  - reflexivity.
  - repeat constructor. eexists. split; [reflexivity|discriminate].
Defined.

Lemma main_rename_bad_line_witness :
  run (main (rename_files ["hCoV-19/USA/IA-CDC-s/2021" +:+ nl; nl])
            (sample_args (Some "names.txt")))
  = ([OpenRead "names.txt"], Raise IndexError).
Proof.
  apply (main_rename_bad_line (rename_files ["hCoV-19/USA/IA-CDC-s/2021" +:+ nl; nl])
           (sample_args (Some "names.txt")) "names.txt" nl
           ["hCoV-19/USA/IA-CDC-s/2021" +:+ nl] []).
  - reflexivity.
  - repeat constructor.
  - reflexivity.
  - reflexivity.
  - repeat constructor. by eexists.
  - reflexivity.
Defined.

(** *** The coverage filter *)

Section high_entropy_facts.

Import HighEntropy.

Lemma cov_line_entry (line : string) (e : Z * Z) :
  cov_entry line = Some e →
  cov_line line
  = Ok (if bool_decide (e.1 - 1 ∈ POSITIONS) then Some (printed e.1 e.2) else None).
Proof.
  unfold cov_entry, cov_line.
  destruct (split_ws (strip line)) as [|name [|pos1 [|cov [|x l]]]]; try done.
  destruct (int pos1) as [p| |]; try done.
  destruct (int cov) as [c| |]; try done.
  intros [= <-]. reflexivity.
Qed.

Lemma cov_loop_report (lines : list string) (entries : list (Z * Z)) (out : list string) :
  mapM cov_entry lines = Some entries →
  cov_loop lines out = (out ++ high_entropy_report entries, Ok tt).
Proof.
  revert entries out. induction lines as [|line lines IH]; intros entries out.
  - intros [= <-]. cbn. by rewrite app_nil_r.
  - cbn [mapM]. intros Hm. apply bind_Some in Hm as (e & He & Hm).
    apply bind_Some in Hm as (es & Hes & [= <-]).
    cbn [cov_loop]. rewrite (cov_line_entry _ _ He).
    unfold high_entropy_report. rewrite filter_cons.
    destruct (decide (e.1 - 1 ∈ POSITIONS)) as [Hin|Hout].
    + rewrite bool_decide_eq_true_2 by done. rewrite (IH es) by done.
      cbn [fmap list_fmap]. by rewrite <- app_assoc.
    + rewrite bool_decide_eq_false_2 by done. by apply IH.
Qed.

End high_entropy_facts.

(** X28. On a coverage file whose lines all hold three fields with an
    integer position and an integer coverage, the script prints, in the
    order of the file, one line for each line of the file whose 0-based
    position is in [POSITIONS], and nothing else. *)
Theorem high_entropy_prints_listed (files : gmap string (list string))
    (prog input_cov : string) (rest lines : list string) (entries : list (Z * Z)) :
  files !! input_cov = Some lines →
  mapM cov_entry lines = Some entries →
  HighEntropy.script files (prog :: input_cov :: rest)
  = (high_entropy_report entries, Ok tt).
Proof.
  intros Hf Hm. unfold HighEntropy.script. rewrite Hf.
  by rewrite (cov_loop_report lines entries []).
Qed.

(** X29. A line that does not split into exactly three fields stops the
    loop with ValueError; what the lines before it gave stays printed. *)
Theorem high_entropy_malformed_line (before after : list string) (line : string)
    (entries : list (Z * Z)) (out : list string) :
  mapM cov_entry before = Some entries →
  length (split_ws (strip line)) ≠ 3%nat →
  HighEntropy.cov_loop (before ++ line :: after) out
  = (out ++ high_entropy_report entries, Raise (ValueError line)).
Proof.
  intros Hm Hlen. revert entries out Hm.
  induction before as [|x before IH]; intros entries out.
  - intros [= <-]. cbn [app HighEntropy.cov_loop]. unfold HighEntropy.cov_line.
    destruct (split_ws (strip line)) as [|a [|b [|c [|d l]]]]; try done.
    all: by rewrite app_nil_r.
  - cbn [mapM]. intros Hm. apply bind_Some in Hm as (e & He & Hm).
    apply bind_Some in Hm as (es & Hes & [= <-]).
    cbn [app HighEntropy.cov_loop]. rewrite (cov_line_entry _ _ He).
    unfold high_entropy_report. rewrite filter_cons.
    destruct (decide (e.1 - 1 ∈ HighEntropy.POSITIONS)) as [Hin|Hout].
    + rewrite bool_decide_eq_true_2 by done. rewrite (IH es) by done.
      cbn [fmap list_fmap]. by rewrite <- app_assoc.
    + rewrite bool_decide_eq_false_2 by done. by apply IH.
Qed.

Lemma high_entropy_prints_listed_witness :
  HighEntropy.script
    {["s.cov" := [cov_row "1237" "40"; cov_row "1238" "41"; cov_row "3216" "7"]]}
    ["get_cov.py"; "s.cov"]
  = (["1238 41"; "3216 7"], Ok tt).
Proof.
  apply (high_entropy_prints_listed
           {["s.cov" := [cov_row "1237" "40"; cov_row "1238" "41"; cov_row "3216" "7"]]}
           "get_cov.py" "s.cov" []
           [cov_row "1237" "40"; cov_row "1238" "41"; cov_row "3216" "7"]
           [(1237, 40); (1238, 41); (3216, 7)]); reflexivity.
Defined.

Lemma high_entropy_malformed_line_witness :
  HighEntropy.cov_loop [cov_row "1238" "41"; nl; cov_row "3216" "7"] []
  = (["1238 41"], Raise (ValueError nl)).
Proof.
  apply (high_entropy_malformed_line [cov_row "1238" "41"] [cov_row "3216" "7"] nl
           [(1238, 41)] []).
  - reflexivity.
  - vm_compute. discriminate.
Defined.

(** *** Termination *)

(** X1. [genVCFcons] returns or raises on every input and after any events:
    none of its loops runs past the number of turns the table allows. *)
Theorem genVCFcons_returns_or_raises (fs : FileSystem)
    (ref_fasta mpileup depth_file vcf_input prefix newid : string)
    (min_coverage : Z) (min_alt_freq : float) (min_qual : Z)
    (use_vcf_info : bool) (vcf_type : option string) (tr : list event) :
  ∃ tr' r,
    genVCFcons fs ref_fasta mpileup depth_file vcf_input prefix newid
               min_coverage min_alt_freq min_qual use_vcf_info vcf_type tr
    = (tr', r)
    ∧ (r = Ok () ∨ ∃ e, r = Raise e).
Proof.
  pose proof (genVCFcons_terminates fs ref_fasta mpileup depth_file vcf_input
                prefix newid min_coverage min_alt_freq min_qual use_vcf_info
                vcf_type tr) as Hfuel.
  destruct (genVCFcons _ _ _ _ _ _ _ _ _ _ _ _ tr) as [tr' [[]|e|]];
    cbn [snd] in Hfuel; [| |done].
  - exists tr', (Ok ()). split; [done|by left].
  - exists tr', (Raise e). split; [done|]. right. by exists e.
Qed.
